(** * langcheck: the model-backed scoring pipeline

    A shallow embedding of
    - [langcheck/metrics/scorer/hf_models.py]
      (class [AutoModelForSequenceClassificationScorer]) and
    - [langcheck/eval/reference_free_text_quality.py]
      (the lazily loaded [sentiment] and [fluency] models),
    with the properties of the scoring pipeline proved about it.

    The Python code is effectful: it calls a tokenizer and a model, raises
    exceptions and keeps module-level globals.  The embedding threads an
    explicit state through a small state-and-exception monad; the Hugging
    Face objects (tokenizer, model) and the torch arithmetic are parameters. *)

From Stdlib Require Import ZArith QArith Lia Lqa.
From Stdlib Require SpecFloat.
From stdpp Require Import base option list strings gmap fin_maps.

Local Open Scope string_scope.
Local Open Scope list_scope.
Local Open Scope nat_scope.

(** ** Python values, exceptions and slices *)

Module Py.

(** The exceptions that the embedded code can raise. *)
Inductive exn : Type :=
| ValueError (msg : string)
| AssertionError
| IndexError
| TypeError
| OSError.

Inductive result (A : Type) : Type :=
| Ok (a : A)
| Raise (e : exn).
Arguments Ok {A} a.
Arguments Raise {A} e.

Definition rbind {A B} (r : result A) (k : A -> result B) : result B :=
  match r with
  | Ok a => k a
  | Raise e => Raise e
  end.

(** A computation over a state [S] that returns a value or raises.  The
    state is returned in both cases: what a Python function did before it
    raised stays done. *)
Definition M (S A : Type) : Type := S -> result A * S.

Definition ret {S A} (a : A) : M S A := fun s => (Ok a, s).

Definition raise {S A} (e : exn) : M S A := fun s => (Raise e, s).

Definition bind {S A B} (c : M S A) (k : A -> M S B) : M S B :=
  fun s =>
    match c s with
    | (Ok a, s') => k a s'
    | (Raise e, s') => (Raise e, s')
    end.

Definition lift {S A} (r : result A) : M S A := fun s => (r, s).

Definition get {S} : M S S := fun s => (Ok s, s).

Definition modify {S} (f : S -> S) : M S unit := fun s => (Ok tt, f s).

(** [try: body finally: cleanup] *)
Definition finally {S A} (body : M S A) (cleanup : S -> S) : M S A :=
  fun s => let '(r, s') := body s in (r, cleanup s').

(** Python's adjustment of one bound of [l[start:end]] for a sequence of
    length [n]: a negative bound counts from the end, and the outcome is
    clamped to [0 .. n]. *)
Definition slice_bound (i n : Z) : Z :=
  if (i <? 0)%Z then Z.max (i + n) 0 else Z.min i n.

Definition slice_start {A} (start_idx : Z) (l : list A) : nat :=
  Z.to_nat (slice_bound start_idx (Z.of_nat (length l))).

Definition slice_stop {A} (end_idx : Z) (l : list A) : nat :=
  Z.to_nat (slice_bound end_idx (Z.of_nat (length l))).

(** [l[start_idx:end_idx]] on a list, or on a tensor along its first axis. *)
Definition slice {A} (start_idx end_idx : Z) (l : list A) : list A :=
  take (slice_stop end_idx l - slice_start start_idx l)
       (drop (slice_start start_idx l) l).

End Py.

Export Py.

Notation "x <- c ;; k" := (bind c (fun x => k))
  (at level 20, c at level 99, k at level 200, only parsing).
Notation "' pat <- c ;; k" := (bind c (fun x => match x with pat => k end))
  (at level 20, pat pattern, c at level 99, k at level 200, only parsing).

(** ** torch and transformers, as far as the code uses them *)

(** The arithmetic of the tensors' element type.  Nothing is assumed of it:
    the operations may round as floating-point operations do. *)
Class Torch (F : Type) : Type := {
  Fzero : F;                        (* an entry of [torch.zeros] *)
  Fadd : F -> F -> F;
  Fmul : F -> F -> F;
  Fdiv_int : F -> Z -> F;           (* tensor entry divided by a Python int *)
  softmax_row : list F -> list F;   (* [softmax] along the class axis *)
}.

(** [softmax] keeps the shape of its argument. *)
Class TorchLaws (F : Type) `{Torch F} : Prop := {
  softmax_row_length : forall r : list F, length (softmax_row r) = length r;
}.

(** A two-dimensional tensor of shape [(length rows, ncols)]. *)
Record Tensor2 (F : Type) : Type := {
  ncols : nat;
  rows : list (list F);
}.
Arguments ncols {F} t.
Arguments rows {F} t.

Definition tensor_wf {F} (t : Tensor2 F) : Prop :=
  Forall (fun r => length r = ncols t) (rows t).

(** A [BatchEncoding] (or the plain dict that slicing makes of it): under each
    key a tensor of token ids with one row per text. *)
Abbreviation Batch := (gmap string (list (list Z))).

(** Every array of the batch has [n] rows. *)
Definition batch_len (n : nat) (b : Batch) : Prop :=
  map_Forall (fun _ v => length v = n) b.

Record Tokenizer : Type := {
  (* [tokenizer(texts, padding=True, truncation=..., max_length=...,
     return_tensors='pt')] *)
  tok_call : list string -> bool -> option Z -> Batch;
  (* [tokenizer.encode(text)]: neither padding nor truncation *)
  tok_encode : string -> list Z;
}.

Record Model (F : Type) : Type := {
  forward : Batch -> Tensor2 F;       (* the [logits] of [model] applied to the batch *)
  max_position_embeddings : Z;        (* [model.config.max_position_embeddings] *)
}.
Arguments forward {F} m b.
Arguments max_position_embeddings {F} m.

Section TensorOps.
Context {F : Type} `{Torch F}.

(** [torch.nn.functional.softmax(logits, dim=1)] *)
Definition softmax (logits : Tensor2 F) : Tensor2 F :=
  {| ncols := ncols logits; rows := map softmax_row (rows logits) |}.

(** [t[:, i]] for [0 <= i] *)
Definition column (t : Tensor2 F) (i : nat) : result (list F) :=
  if decide (i < ncols t)
  then Ok (map (fun r => default Fzero (r !! i)) (rows t))
  else Raise IndexError.

(** The weighted sum of a probability vector, added to [acc] class by
    class from the first class on. *)
Definition dot_from (acc : F) (probs weights : list F) : F :=
  fold_left (fun acc pw => Fadd acc (Fmul pw.1 pw.2)) (zip probs weights) acc.

(** The dot product of a probability vector and a weight vector. *)
Definition dot (probs weights : list F) : F := dot_from Fzero probs weights.

(** A score where the text was valid, no score where it was not. *)
Definition nullified (validation_results : list bool) (scores : list F)
    : list (option F) :=
  zip_with (fun (valid : bool) score => if valid then Some score else None)
    validation_results scores.
End TensorOps.

(** ** langcheck/metrics/scorer/hf_models.py *)

Module HfModels.

(** What the scorer does to the outside, in the order it does it. *)
Inductive event : Type :=
| FetchModel (language metric : string)
| TokenizerCall (inputs : list string) (max_length : Z)
| TokenizerEncode (input_str : string)
| ModelForward (input_tokens : Batch).

Record World : Type := {
  trace : list event;
  logging_level : Z;
}.

Definition emit (e : event) : M World unit :=
  modify (fun w => {| trace := trace w ++ [e]; logging_level := logging_level w |}).

(** The world after the events [es], and nothing else, have happened. *)
Definition after (es : list event) (w : World) : World :=
  {| trace := trace w ++ es; logging_level := logging_level w |}.

Definition set_logging_level (l : Z) (w : World) : World :=
  {| trace := trace w; logging_level := l |}.

Definition is_forward (e : event) : bool :=
  match e with ModelForward _ => true | _ => false end.

Definition is_encode (e : event) : bool :=
  match e with TokenizerEncode _ => true | _ => false end.

(** [logging.ERROR] *)
Definition ERROR : Z := 40%Z.

(** Modelled from the spec: [langcheck._handle_logs._handle_logging_level]
    is not among the sources.  The spec asks that the library's warnings
    about over-long token sequences be suppressed while a text is encoded:
    the context manager runs its body at level [ERROR] and puts the previous
    level back when the body ends, whether it returned or raised. *)
Definition _handle_logging_level {A} (body : M World A) : M World A :=
  fun w =>
    let old := logging_level w in
    finally body (set_logging_level old) (set_logging_level ERROR w).

Section Scorer.
Context {F : Type} `{Torch F}.

(** [langcheck.metrics.model_manager.manager.fetch_model], which is not
    among the sources: it hands out the tokenizer and the model of a
    language and a metric, or raises. *)
Variable fetch_model : string -> string -> result (Tokenizer * Model F).

Record Scorer : Type := {
  overflow_strategy : string;
  tokenizer : Tokenizer;
  model : Model F;
  class_weights : list F;
  max_input_length : Z;
}.

(** [__init__]; Python's default [overflow_strategy='nullify'] and
    [max_input_length=None] are passed explicitly here. *)
Definition __init__ (language metric : string) (class_weights : list F)
    (overflow_strategy : string) (max_input_length : option Z) : M World Scorer :=
  _ <- emit (FetchModel language metric) ;;
  '(tokenizer, model) <- lift (fetch_model language metric) ;;
  ret {| overflow_strategy := overflow_strategy;
         tokenizer := tokenizer;
         model := model;
         class_weights := class_weights;
         max_input_length :=
           match max_input_length with
           | Some n => n
           | None => max_position_embeddings model
           end |}.

(** The loop of [_validate_inputs]; [validation_results] is the list
    that the loop appends to. *)
Fixpoint _validate_inputs_loop (self : Scorer) (inputs : list string)
    (validation_results : list bool) : M World (list bool) :=
  match inputs with
  | [] => ret validation_results
  | input_str :: inputs' =>
      input_ids <- _handle_logging_level
                     (_ <- emit (TokenizerEncode input_str) ;;
                      ret (tok_encode (tokenizer self) input_str)) ;;
      _validate_inputs_loop self inputs'
        (validation_results ++
           [(Z.of_nat (length input_ids) <=? max_input_length self)%Z])
  end.

Definition _validate_inputs (self : Scorer) (inputs : list string)
    : M World (list bool) :=
  _validate_inputs_loop self inputs [].

(** The spec's [is_within_limit] of a text: the token count of its
    encoding is at most [max_input_length]. *)
Definition is_within_limit (self : Scorer) (text : string) : bool :=
  bool_decide (Z.of_nat (length (tok_encode (tokenizer self) text))
                 <= max_input_length self)%Z.

(** [_tokenize]; the [assert] statement is executed, as it is unless Python
    runs with [-O]. *)
Definition _tokenize (self : Scorer) (inputs : list string)
    : M World (Batch * list bool) :=
  _ <- emit (TokenizerCall inputs (max_input_length self)) ;;
  let truncated_tokens :=
    tok_call (tokenizer self) inputs true (Some (max_input_length self)) in
  if String.eqb (overflow_strategy self) "truncate"
  then ret (truncated_tokens, replicate (length inputs) true)
  else
    input_validation_results <- _validate_inputs self inputs ;;
    if String.eqb (overflow_strategy self) "raise"
       && negb (forallb id input_validation_results)
    then raise (ValueError "Some of the inputs are too long.")
    else
      if String.eqb (overflow_strategy self) "nullify"
      then ret (truncated_tokens, input_validation_results)
      else raise AssertionError.

(** The loop of [_logits_to_scores] over [enumerate(self.class_weights)],
    from index [i] on. *)
Fixpoint _logits_to_scores_loop (probs : Tensor2 F) (i : nat)
    (class_weights : list F) (scores : list F) : result (list F) :=
  match class_weights with
  | [] => Ok scores
  | class_weight :: class_weights' =>
      rbind (column probs i) (fun col =>
        _logits_to_scores_loop probs (S i) class_weights'
          (zip_with Fadd scores (map (fun p => Fmul p class_weight) col)))
  end.

Definition _logits_to_scores (self : Scorer) (logits : Tensor2 F)
    : result (list F) :=
  let probs := softmax logits in
  let scores := replicate (length (rows probs)) Fzero in
  _logits_to_scores_loop probs 0 (class_weights self) scores.

(** The loop of [_score_tokens] over [enumerate(validation_results)],
    from index [i] on; [scores[i] = None] raises outside the list. *)
Fixpoint _score_tokens_loop (i : nat) (validation_results : list bool)
    (scores : list (option F)) : result (list (option F)) :=
  match validation_results with
  | [] => Ok scores
  | validation_result :: validation_results' =>
      if negb validation_result
      then
        if decide (i < length scores)
        then _score_tokens_loop (S i) validation_results' (<[i := None]> scores)
        else Raise IndexError
      else _score_tokens_loop (S i) validation_results' scores
  end.

Definition _score_tokens (self : Scorer) (tokens : Batch * list bool)
    : M World (list (option F)) :=
  let '(input_tokens, validation_results) := tokens in
  _ <- emit (ModelForward input_tokens) ;;
  let logits := forward (model self) input_tokens in
  scores <- lift (_logits_to_scores self logits) ;;
  lift (_score_tokens_loop 0 validation_results (map Some scores)).

Definition _slice_tokens (self : Scorer) (tokens : Batch * list bool)
    (start_idx end_idx : Z) : Batch * list bool :=
  let '(input_tokens, validation_results) := tokens in
  (slice start_idx end_idx <$> input_tokens,
   slice start_idx end_idx validation_results).

End Scorer.

Arguments Scorer F : clear implicits.

End HfModels.

(** ** langcheck/eval/reference_free_text_quality.py *)

Module ReferenceFreeTextQuality.

Definition _sentiment_model_path : string :=
  "cardiffnlp/twitter-roberta-base-sentiment-latest".

Definition _fluency_model_path : string :=
  "prithivida/parrot_fluency_model".

(** A loaded Python object: what it does, and which object it is.  Two
    loads of the same path give objects that behave alike and are not the
    same object; [obj_id] tells them apart. *)
Record Loaded (A : Type) : Type := {
  obj_id : nat;
  obj : A;
}.
Arguments obj_id {A} l.
Arguments obj {A} l.

(** One call of [from_pretrained], and whether it returned. *)
Inductive load : Type :=
| LoadTokenizer (path : string) (returned : bool)
| LoadModel (path : string) (returned : bool).

Record EvalValue (F : Type) : Type := {
  metric_name : string;
  prompts : option (list string);
  generated_outputs : list string;
  metric_values : list F;
}.

Section Eval.
Context {F : Type} `{Torch F}.

(** The model hub: what the [n]-th call of [from_pretrained] in the
    process finds under a path, if anything. *)
Variable hub_tokenizer : nat -> string -> option Tokenizer.
Variable hub_model : nat -> string -> option (Model F).

(** The module's globals, and the log of the loads made so far. *)
Record Globals : Type := {
  _sentiment_tokenizer : option (Loaded Tokenizer);
  _sentiment_model : option (Loaded (Model F));
  _fluency_tokenizer : option (Loaded Tokenizer);
  _fluency_model : option (Loaded (Model F));
  loads : list load;
}.

(** The globals when the module has just been imported. *)
Definition initial_globals : Globals :=
  {| _sentiment_tokenizer := None; _sentiment_model := None;
     _fluency_tokenizer := None; _fluency_model := None;
     loads := [] |}.

Definition set_sentiment_tokenizer (v : option (Loaded Tokenizer)) (g : Globals) :=
  {| _sentiment_tokenizer := v; _sentiment_model := _sentiment_model g;
     _fluency_tokenizer := _fluency_tokenizer g; _fluency_model := _fluency_model g;
     loads := loads g |}.

Definition set_sentiment_model (v : option (Loaded (Model F))) (g : Globals) :=
  {| _sentiment_tokenizer := _sentiment_tokenizer g; _sentiment_model := v;
     _fluency_tokenizer := _fluency_tokenizer g; _fluency_model := _fluency_model g;
     loads := loads g |}.

Definition set_fluency_tokenizer (v : option (Loaded Tokenizer)) (g : Globals) :=
  {| _sentiment_tokenizer := _sentiment_tokenizer g; _sentiment_model := _sentiment_model g;
     _fluency_tokenizer := v; _fluency_model := _fluency_model g;
     loads := loads g |}.

Definition set_fluency_model (v : option (Loaded (Model F))) (g : Globals) :=
  {| _sentiment_tokenizer := _sentiment_tokenizer g; _sentiment_model := _sentiment_model g;
     _fluency_tokenizer := _fluency_tokenizer g; _fluency_model := v;
     loads := loads g |}.

Definition log_load (l : load) (g : Globals) :=
  {| _sentiment_tokenizer := _sentiment_tokenizer g; _sentiment_model := _sentiment_model g;
     _fluency_tokenizer := _fluency_tokenizer g; _fluency_model := _fluency_model g;
     loads := loads g ++ [l] |}.

(** [AutoTokenizer.from_pretrained(path)] *)
Definition AutoTokenizer_from_pretrained (path : string)
    : M Globals (Loaded Tokenizer) :=
  fun g =>
    let n := length (loads g) in
    match hub_tokenizer n path with
    | Some t => (Ok {| obj_id := n; obj := t |}, log_load (LoadTokenizer path true) g)
    | None => (Raise OSError, log_load (LoadTokenizer path false) g)
    end.

(** [AutoModelForSequenceClassification.from_pretrained(path)] *)
Definition AutoModelForSequenceClassification_from_pretrained (path : string)
    : M Globals (Loaded (Model F)) :=
  fun g =>
    let n := length (loads g) in
    match hub_model n path with
    | Some m => (Ok {| obj_id := n; obj := m |}, log_load (LoadModel path true) g)
    | None => (Raise OSError, log_load (LoadModel path false) g)
    end.

(** Lines 34-43 of [sentiment]: the globals are filled on first use; what
    comes back is the pair that the rest of the function then calls. *)
Definition sentiment_models : M Globals (Loaded Tokenizer * Loaded (Model F)) :=
  g <- get ;;
  _ <- (if bool_decide (_sentiment_tokenizer g = None)
           || bool_decide (_sentiment_model g = None)
        then
          t <- AutoTokenizer_from_pretrained _sentiment_model_path ;;
          _ <- modify (set_sentiment_tokenizer (Some t)) ;;
          m <- AutoModelForSequenceClassification_from_pretrained
                 _sentiment_model_path ;;
          modify (set_sentiment_model (Some m))
        else ret tt) ;;
  g' <- get ;;
  match _sentiment_tokenizer g', _sentiment_model g' with
  | Some t, Some m => ret (t, m)
  | _, _ => raise TypeError    (* calling [None]; never reached *)
  end.

Definition sentiment (generated_outputs : list string) : M Globals (EvalValue F) :=
  '(tokenizer, model) <- sentiment_models ;;
  let input_tokens := tok_call (obj tokenizer) generated_outputs false None in
  let probs := softmax (forward (obj model) input_tokens) in
  col1 <- lift (column probs 1) ;;
  col2 <- lift (column probs 2) ;;
  let scores := zip_with Fadd (map (fun p => Fdiv_int p 2) col1) col2 in
  ret {| metric_name := "sentiment";
         prompts := None;
         generated_outputs := generated_outputs;
         metric_values := scores |}.

(** Lines 75-83 of [fluency]. *)
Definition fluency_models : M Globals (Loaded Tokenizer * Loaded (Model F)) :=
  g <- get ;;
  _ <- (if bool_decide (_fluency_tokenizer g = None)
           || bool_decide (_fluency_model g = None)
        then
          t <- AutoTokenizer_from_pretrained _fluency_model_path ;;
          _ <- modify (set_fluency_tokenizer (Some t)) ;;
          m <- AutoModelForSequenceClassification_from_pretrained
                 _fluency_model_path ;;
          modify (set_fluency_model (Some m))
        else ret tt) ;;
  g' <- get ;;
  match _fluency_tokenizer g', _fluency_model g' with
  | Some t, Some m => ret (t, m)
  | _, _ => raise TypeError    (* calling [None]; never reached *)
  end.

Definition fluency (generated_outputs : list string) : M Globals (EvalValue F) :=
  '(tokenizer, model) <- fluency_models ;;
  let input_tokens := tok_call (obj tokenizer) generated_outputs false None in
  let probs := softmax (forward (obj model) input_tokens) in
  scores <- lift (column probs 1) ;;
  ret {| metric_name := "fluency";
         prompts := None;
         generated_outputs := generated_outputs;
         metric_values := scores |}.

(** *** The two functions as one cache with two keys *)

Inductive metric : Type := Sentiment | Fluency.

Definition path_of (k : metric) : string :=
  match k with
  | Sentiment => _sentiment_model_path
  | Fluency => _fluency_model_path
  end.

Definition fetch (k : metric) : M Globals (Loaded Tokenizer * Loaded (Model F)) :=
  match k with
  | Sentiment => sentiment_models
  | Fluency => fluency_models
  end.

Definition call (k : metric) (generated_outputs : list string)
    : M Globals (EvalValue F) :=
  match k with
  | Sentiment => sentiment generated_outputs
  | Fluency => fluency generated_outputs
  end.

(** The globals of a key. *)
Definition cached_tokenizer (k : metric) (g : Globals) : option (Loaded Tokenizer) :=
  match k with
  | Sentiment => _sentiment_tokenizer g
  | Fluency => _fluency_tokenizer g
  end.

Definition cached_model (k : metric) (g : Globals) : option (Loaded (Model F)) :=
  match k with
  | Sentiment => _sentiment_model g
  | Fluency => _fluency_model g
  end.

(** The state after a run of calls, whatever each of them returned. *)
Fixpoint run_calls (calls : list (metric * list string)) (g : Globals) : Globals :=
  match calls with
  | [] => g
  | (k, outputs) :: calls' => run_calls calls' (call k outputs g).2
  end.

(** How many loads of the model under a path have returned. *)
Definition is_model_load (path : string) (l : load) : bool :=
  match l with
  | LoadModel p true => String.eqb p path
  | _ => false
  end.

Definition model_loads (path : string) (g : Globals) : nat :=
  length (filter (fun l => is_model_load path l = true) (loads g)).

(** What holds of the globals whatever has been called: the model of a
    key is set after its tokenizer, and it is set if and only if a load of
    it has returned, which then happened once. *)
Definition globals_inv (g : Globals) : Prop :=
  forall k,
    (cached_tokenizer k g = None -> cached_model k g = None)
    /\ model_loads (path_of k) g
       = match cached_model k g with Some _ => 1 | None => 0 end.

End Eval.

Arguments Globals F : clear implicits.

End ReferenceFreeTextQuality.

(** ** A small concrete instance

    Exact rational arithmetic, a tokenizer with one token per character and
    a three-class model that is undecided about every text.  The properties
    below are evaluated on it. *)

Module Toy.
Import HfModels.

(** Rational arithmetic, every result in lowest terms, with a given
    [softmax]. *)
Definition QTorch (softmax_row : list Q -> list Q) : Torch Q :=
  {| Fzero := 0%Q;
     Fadd := fun x y => Qred (x + y)%Q;
     Fmul := fun x y => Qred (x * y)%Q;
     Fdiv_int := fun x n => Qred (x / inject_Z n)%Q;
     softmax_row := softmax_row |}.

(** [softmax] of a row of equal logits: every class is as likely as every
    other.  The toy model returns such rows only. *)
Definition uniform_softmax (r : list Q) : list Q :=
  map (fun _ => Qred (1 / inject_Z (Z.of_nat (length r)))%Q) r.

Definition torch : Torch Q := QTorch uniform_softmax.

Definition torch_laws : @TorchLaws Q torch.
Proof. constructor. intros r. apply length_map. Defined.

Definition encode (s : string) : list Z :=
  map (fun a => Z.of_nat (Ascii.nat_of_ascii a)) (String.list_ascii_of_string s).

Definition truncate (truncation : bool) (max_length : option Z) (ids : list Z)
    : list Z :=
  match truncation, max_length with
  | true, Some n => take (Z.to_nat n) ids
  | _, _ => ids
  end.

Definition pad (width : nat) (fill : Z) (ids : list Z) : list Z :=
  ids ++ replicate (width - length ids) fill.

Definition call (inputs : list string) (truncation : bool) (max_length : option Z)
    : Batch :=
  let seqs := map (fun s => truncate truncation max_length (encode s)) inputs in
  let width := foldr Nat.max 0 (map length seqs) in
  <["input_ids" := map (pad width 0%Z) seqs]>
    (<["attention_mask" :=
         map (fun ids => pad width 0%Z (map (fun _ => 1%Z) ids)) seqs]> ∅).

Definition toy_tokenizer : Tokenizer :=
  {| tok_call := call; tok_encode := encode |}.

Definition toy_forward (b : Batch) : Tensor2 Q :=
  {| ncols := 3;
     rows := map (fun _ => [0%Q; 0%Q; 0%Q]) (default [] (b !! "input_ids")) |}.

Definition toy_model : Model Q :=
  {| forward := toy_forward; max_position_embeddings := 8%Z |}.

Definition fetch_model (language metric : string) : result (Tokenizer * Model Q) :=
  Ok (toy_tokenizer, toy_model).

Definition world0 : World := {| trace := []; logging_level := 30%Z |}.

(** A scorer over the toy model, as [__init__] builds it. *)
Definition scorer (class_weights : list Q) (overflow_strategy : string)
    : Scorer Q :=
  {| overflow_strategy := overflow_strategy;
     tokenizer := toy_tokenizer;
     model := toy_model;
     class_weights := class_weights;
     max_input_length := 8%Z |}.

Definition sentiment_weights : list Q := [0; 0.5; 1]%Q.

(** Two texts, of five and of sixteen tokens: the second is longer than
    the eight tokens that the toy model takes. *)
Definition texts : list string := ["short"; "a very long text"].

(** The batch of [texts], truncated to eight tokens. *)
Definition tokens : Batch := call texts true (Some 8%Z).

(** The world after [_tokenize] has validated [texts]. *)
Definition world1 : World :=
  after (TokenizerCall texts 8 :: map TokenizerEncode texts) world0.

(** The logits of one text. *)
Definition undecided : Tensor2 Q :=
  {| ncols := 3; rows := [[0; 0; 0]%Q] |}.

(** A hub on which every load succeeds. *)
Definition hub_tokenizer (n : nat) (path : string) : option Tokenizer :=
  Some toy_tokenizer.

Definition hub_model (n : nat) (path : string) : option (Model Q) :=
  Some toy_model.

End Toy.

(** ** The arithmetic of [torch.float32]

    The tensors of the scorer hold IEEE 754 binary32 numbers: 24 bits of
    precision, rounding to nearest, ties to even.  [softmax] stays a
    parameter. *)

Module Float32.

Definition prec : Z := 24%Z.
Definition emax : Z := 128%Z.

Definition of_Z (n : Z) : SpecFloat.spec_float :=
  SpecFloat.binary_normalize prec emax n 0 false.

Definition float32 (softmax_row : list SpecFloat.spec_float -> list SpecFloat.spec_float)
    : Torch SpecFloat.spec_float :=
  {| Fzero := SpecFloat.S754_zero false;
     Fadd := SpecFloat.SFadd prec emax;
     Fmul := SpecFloat.SFmul prec emax;
     Fdiv_int := fun x n => SpecFloat.SFdiv prec emax x (of_Z n);
     softmax_row := softmax_row |}.

(** The rational that a finite number stands for. *)
Definition to_Q (x : SpecFloat.spec_float) : Q :=
  match x with
  | SpecFloat.S754_finite s m e =>
      ((if s then -1 else 1) * inject_Z (Z.pos m) * 2 ^ e)%Q
  | _ => 0%Q
  end.

(** Half the distance between a finite number and the next one of the
    same exponent. *)
Definition half_ulp (x : SpecFloat.spec_float) : Q :=
  match x with
  | SpecFloat.S754_finite _ _ e => (2 ^ (e - 1))%Q
  | _ => 0%Q
  end.

(** [f] is a normal binary32 number no further from [x] than half the
    distance to its neighbours: rounding [x] to nearest gives [f]. *)
Definition rounds (x : Q) (f : SpecFloat.spec_float) : Prop :=
  match f with
  | SpecFloat.S754_finite _ m _ =>
      (2 ^ 23 <= Z.pos m < 2 ^ 24)%Z
      /\ (to_Q f - half_ulp f <= x)%Q /\ (x <= to_Q f + half_ulp f)%Q
  | _ => False
  end.

(** The number that Python's literal [0.65] stands for: the binary64
    number next to 0.65. *)
Definition python_0_65 : Q := (5854679515581645 # 2 ^ 53)%Q.

(** The binary32 numbers next to 0.2, 0.3 and 0.5, and the weights 0, 0.5
    and 1, which are binary32 numbers themselves. *)
Definition probabilities : list SpecFloat.spec_float :=
  [SpecFloat.S754_finite false 13421773 (-26);
   SpecFloat.S754_finite false 10066330 (-25);
   SpecFloat.S754_finite false 8388608 (-24)].

Definition weights : list SpecFloat.spec_float :=
  [SpecFloat.S754_zero false;
   SpecFloat.S754_finite false 8388608 (-24);
   SpecFloat.S754_finite false 8388608 (-23)].

End Float32.

(** ** langcheck/augment/ja/_conv_kana.py *)

Module ConvKana.

Section ConvHiragana.

(** A character of a Python [str]; a [str] is a list of them. *)
Context {char : Type}.

(** [jaconv.hira2kata], [jaconv.hira2hkata] and [jaconv.kana2alphabet]. *)
Variable hira2kata hira2hkata kana2alphabet : list char -> list char.

(** What [random.random()] returns at its [n]-th call. *)
Variable random_values : nat -> Q.

(** [random.random()]; the state counts the calls. *)
Definition random : M nat Q := fun n => (Ok (random_values n), S n).

(** Lines 40-49: the conversion of one character that was drawn. *)
Definition convert (convert_to : string) (c : char) : result (list char) :=
  if String.eqb convert_to "kata" then Ok (hira2kata [c])
  else if String.eqb convert_to "hkata" then Ok (hira2hkata [c])
  else if String.eqb convert_to "alpha" then Ok (kana2alphabet [c])
  else Raise (ValueError "convert_to must be one of 'kata', 'hkata', or 'alpha'").

(** [for char in instance], with the string built so far. *)
Fixpoint chars_loop (convert_to : string) (aug_char_p : Q)
    (instance perturbed_instance : list char) : M nat (list char) :=
  match instance with
  | [] => ret perturbed_instance
  | c :: instance' =>
      r <- random ;;
      if negb (Qle_bool r aug_char_p)                 (* [r > aug_char_p] *)
      then chars_loop convert_to aug_char_p instance' (perturbed_instance ++ [c])
      else
        converted <- lift (convert convert_to c) ;;
        chars_loop convert_to aug_char_p instance' (perturbed_instance ++ converted)
  end.

(** [for _ in range(num_perturbations)], with the iterations left. *)
Fixpoint perturbations_loop (convert_to : string) (aug_char_p : Q)
    (instance : list char) (left : nat) (perturbed_instances : list (list char))
    : M nat (list (list char)) :=
  match left with
  | O => ret perturbed_instances
  | S left' =>
      perturbed_instance <- chars_loop convert_to aug_char_p instance [] ;;
      perturbations_loop convert_to aug_char_p instance left'
        (perturbed_instances ++ [perturbed_instance])
  end.

(** [for instance in instances] *)
Fixpoint instances_loop (convert_to : string) (aug_char_p : Q)
    (num_perturbations : Z) (instances : list (list char))
    (perturbed_instances : list (list char)) : M nat (list (list char)) :=
  match instances with
  | [] => ret perturbed_instances
  | instance :: instances' =>
      perturbed_instances' <-
        perturbations_loop convert_to aug_char_p instance
          (Z.to_nat num_perturbations) perturbed_instances ;;
      instances_loop convert_to aug_char_p num_perturbations instances'
        perturbed_instances'
  end.

(** [conv_hiragana]; [instances] is a list of strings ([inl]) or one string
    ([inr]).  Python's defaults are [convert_to="kata"], [aug_char_p=1.0]
    and [num_perturbations=1]. *)
Definition conv_hiragana (instances : list (list char) + list char)
    (convert_to : string) (aug_char_p : Q) (num_perturbations : Z)
    : M nat (list (list char)) :=
  let instances :=
    match instances with
    | inr instance => [instance]
    | inl instances => instances
    end in
  instances_loop convert_to aug_char_p num_perturbations instances [].

(** The list of strings that [conv_hiragana] works on. *)
Definition as_list (instances : list (list char) + list char) : list (list char) :=
  match instances with
  | inr instance => [instance]
  | inl instances => instances
  end.

(** The exception of line 47. *)
Definition invalid_convert_to : exn :=
  ValueError "convert_to must be one of 'kata', 'hkata', or 'alpha'".

(** The function of [jaconv] that a value of [convert_to] selects. *)
Definition converter (convert_to : string) : option (list char -> list char) :=
  if String.eqb convert_to "kata" then Some hira2kata
  else if String.eqb convert_to "hkata" then Some hira2hkata
  else if String.eqb convert_to "alpha" then Some kana2alphabet
  else None.

End ConvHiragana.

End ConvKana.

(** ** langcheck/eval/reference_free_text_quality.py, the other metrics *)

(** The exceptions of these functions. *)
Module PyMore.

Inductive exn : Type :=
| ZeroDivisionError
| KeyError (key : string)
| Builtin (e : Py.exn).

Inductive outcome (A : Type) : Type :=
| Returned (a : A)
| Raised (e : exn).
Arguments Returned {A} a.
Arguments Raised {A} e.

Definition obind {A B} (r : outcome A) (k : A -> outcome B) : outcome B :=
  match r with
  | Returned a => k a
  | Raised e => Raised e
  end.

End PyMore.

Module Readability.
Import PyMore ReferenceFreeTextQuality.

(** The fields of [langcheck.stats.TextStats] that the scores use. *)
Record TextStats : Type := {
  num_sentences : Z;
  num_words : Z;
  num_syllables : Z;
}.

(** Python's [float]: the literals, and the operations that the scores use.
    Nothing is assumed of them. *)
Class PyFloat (F : Type) : Type := {
  literal : Q -> F;                 (* a decimal literal *)
  float_add : F -> F -> F;
  float_sub : F -> F -> F;
  float_mul : F -> F -> F;
  int_div : Z -> Z -> F;            (* [a / b] of two ints, [b] not zero *)
}.

Section Flesch.
Context {F : Type} `{PyFloat F}.

(** [langcheck.stats.compute_stats], which is not among the sources. *)
Variable compute_stats : string -> TextStats.

(** [a / b] of two ints *)
Definition truediv (a b : Z) : outcome F :=
  if (b =? 0)%Z then Raised ZeroDivisionError else Returned (int_div a b).

(** The element of the list comprehension of [flesch_reading_ease]. *)
Definition reading_ease (stat : TextStats) : outcome F :=
  obind (truediv (num_words stat) (num_sentences stat)) (fun words_per_sentence =>
  obind (truediv (num_syllables stat) (num_words stat)) (fun syllables_per_word =>
  Returned
    (float_sub
       (float_sub (literal 206.835)
          (float_mul (literal 1.015) words_per_sentence))
       (float_mul (literal 84.6) syllables_per_word)))).

(** The element of the list comprehension of [flesch_kincaid_grade]. *)
Definition kincaid_grade (stat : TextStats) : outcome F :=
  obind (truediv (num_words stat) (num_sentences stat)) (fun words_per_sentence =>
  obind (truediv (num_syllables stat) (num_words stat)) (fun syllables_per_word =>
  Returned
    (float_sub
       (float_add (float_mul (literal 0.39) words_per_sentence)
          (float_mul (literal 11.8) syllables_per_word))
       (literal 15.59)))).

(** [[score(stat) for stat in output_stats]] *)
Fixpoint comprehension (score : TextStats -> outcome F)
    (output_stats : list TextStats) : outcome (list F) :=
  match output_stats with
  | [] => Returned []
  | stat :: output_stats' =>
      obind (score stat) (fun x =>
      obind (comprehension score output_stats') (fun xs =>
      Returned (x :: xs)))
  end.

Definition flesch_reading_ease (generated_outputs : list string)
    : outcome (EvalValue F) :=
  let output_stats := map compute_stats generated_outputs in
  obind (comprehension reading_ease output_stats) (fun scores =>
  Returned {| metric_name := "flesch_reading_ease";
              prompts := None;
              generated_outputs := generated_outputs;
              metric_values := scores |}).

Definition flesch_kincaid_grade (generated_outputs : list string)
    : outcome (EvalValue F) :=
  let output_stats := map compute_stats generated_outputs in
  obind (comprehension kincaid_grade output_stats) (fun scores =>
  Returned {| metric_name := "flesch_kincaid_grade";
              prompts := None;
              generated_outputs := generated_outputs;
              metric_values := scores |}).

(** A text that both scores can be computed for. *)
Definition countable (stat : TextStats) : bool :=
  negb (num_sentences stat =? 0)%Z && negb (num_words stat =? 0)%Z.

End Flesch.

End Readability.

Module Toxicity.
Import PyMore ReferenceFreeTextQuality.

(** A [Detoxify] object: [predict] on a list of texts returns a dict from
    the names of the scores to the lists of the scores. *)
Record Detoxify (F : Type) : Type := {
  predict : list string -> gmap string (list F);
}.
Arguments predict {F} d texts.

Section Eval.
Context {F : Type}.

(** What the [n]-th call of [Detoxify(model_type)] in the process returns,
    if it returns. *)
Variable new_Detoxify : nat -> string -> option (Detoxify F).

(** The global of [toxicity], and for each call of [Detoxify(...)] so far
    whether it returned. *)
Record Globals : Type := {
  _toxicity_model : option (Loaded (Detoxify F));
  constructions : list bool;
}.

Definition initial_globals : Globals :=
  {| _toxicity_model := None; constructions := [] |}.

Definition toxicity (generated_outputs : list string) (g : Globals)
    : outcome (EvalValue F) * Globals :=
  let '(loaded, g1) :=
    match _toxicity_model g with
    | None =>
        let n := length (constructions g) in
        match new_Detoxify n "original" with
        | Some d =>
            (Returned tt,
             {| _toxicity_model := Some {| obj_id := n; obj := d |};
                constructions := constructions g ++ [true] |})
        | None =>
            (Raised (Builtin OSError),
             {| _toxicity_model := None;
                constructions := constructions g ++ [false] |})
        end
    | Some _ => (Returned tt, g)
    end in
  match loaded with
  | Raised e => (Raised e, g1)
  | Returned _ =>
      match _toxicity_model g1 with
      | None => (Raised (Builtin TypeError), g1)    (* never reached *)
      | Some model =>
          match predict (obj model) generated_outputs !! "toxicity" with
          | None => (Raised (KeyError "toxicity"), g1)
          | Some scores =>
              (Returned {| metric_name := "toxicity";
                           prompts := None;
                           generated_outputs := generated_outputs;
                           metric_values := scores |}, g1)
          end
      end
  end.

(** The globals after a run of calls, whatever each of them returned. *)
Fixpoint run_calls (calls : list (list string)) (g : Globals) : Globals :=
  match calls with
  | [] => g
  | generated_outputs :: calls' =>
      run_calls calls' (toxicity generated_outputs g).2
  end.

(** How many calls of [Detoxify(...)] have returned. *)
Definition constructed (g : Globals) : nat :=
  length (filter (fun b => b = true) (constructions g)).

(** The model is set if and only if one construction has returned. *)
Definition toxicity_inv (g : Globals) : Prop :=
  constructed g = match _toxicity_model g with Some _ => 1 | None => 0 end.

End Eval.

Arguments Globals F : clear implicits.

End Toxicity.

(** ** Probability vectors, in exact arithmetic *)

Module Exact.



End Exact.

(** ** More concrete instances *)

Module Examples.
Import PyMore ReferenceFreeTextQuality.

(** Characters as code points.  Hiragana lies from U+3041 to U+3096, and
    katakana 96 code points above it. *)
Definition hiragana (c : N) : bool := ((12353 <=? c) && (c <=? 12438))%N.

Definition to_kata (s : list N) : list N :=
  map (fun c => if hiragana c then (c + 96)%N else c) s.

(** A conversion that writes two characters for one. *)
Definition to_pair (s : list N) : list N :=
  flat_map (fun c => if hiragana c then [c; c] else [c]) s.

(** Every random number is one half. *)
Definition one_half (n : nat) : Q := (1 # 2)%Q.

(** "ねこ" followed by "A", and the word "ok". *)
Definition neko_a : list N := [12397; 12371; 65]%N.
Definition ok : list N := [111; 107]%N.

(** Python's floats as exact rationals. *)
Definition QFloat : Readability.PyFloat Q :=
  {| Readability.literal := fun q => Qred q;
     Readability.float_add := fun x y => Qred (x + y)%Q;
     Readability.float_sub := fun x y => Qred (x - y)%Q;
     Readability.float_mul := fun x y => Qred (x * y)%Q;
     Readability.int_div := fun a b => Qred (inject_Z a / inject_Z b)%Q |}.

(** One word per character, one syllable per character, and one sentence
    unless the text is empty. *)
Definition count_characters (text : string) : Readability.TextStats :=
  {| Readability.num_sentences := if String.eqb text "" then 0 else 1;
     Readability.num_words := Z.of_nat (String.length text);
     Readability.num_syllables := Z.of_nat (String.length text) |}.

(** A model of [n] classes that is undecided about every text. *)
Definition model_of (n : nat) : Model Q :=
  {| forward := fun b =>
       {| ncols := n;
          rows := map (fun _ => replicate n 0%Q) (default [] (b !! "input_ids")) |};
     max_position_embeddings := 8%Z |}.

Definition hub_model_of (n : nat) (k : nat) (path : string) : option (Model Q) :=
  Some (model_of n).

(** The globals after a first call of [sentiment], or of [fluency], with a
    model of [n] classes on the hub. *)
Definition sentiment_loaded (n : nat) : Globals Q :=
  (sentiment_models Toy.hub_tokenizer (hub_model_of n) initial_globals).2.

Definition fluency_loaded (n : nat) : Globals Q :=
  (fluency_models Toy.hub_tokenizer (hub_model_of n) initial_globals).2.

(** A [Detoxify] that finds nothing toxic. *)
Definition harmless : Toxicity.Detoxify Q :=
  {| Toxicity.predict := fun texts =>
       {[ "toxicity" := map (fun _ => 0%Q) texts ]} |}.

(** The first construction fails, the later ones return. *)
Definition second_try (n : nat) (model_type : string) : option (Toxicity.Detoxify Q) :=
  match n with
  | O => None
  | S _ => Some harmless
  end.

End Examples.

(** * Properties *)

(** ** Running the monad *)

Section MonadFacts.
Context {S A B : Type}.

Lemma bind_Ok (c : M S A) (k : A -> M S B) s a s' :
  c s = (Ok a, s') -> bind c k s = k a s'.
Proof. intros Hc. unfold bind. by rewrite Hc. Qed.

Lemma bind_Raise (c : M S A) (k : A -> M S B) s e s' :
  c s = (Raise e, s') -> bind c k s = (Raise e, s').
Proof. intros Hc. unfold bind. by rewrite Hc. Qed.

Lemma bind_inv_Ok (c : M S A) (k : A -> M S B) s b s2 :
  bind c k s = (Ok b, s2) ->
  exists a s1, c s = (Ok a, s1) /\ k a s1 = (Ok b, s2).
Proof.
  unfold bind. destruct (c s) as [[a|e] s1]; intros Hk.
  - by exists a, s1.
  - discriminate.
Qed.
End MonadFacts.

(** ** Python slices *)

Section SliceFacts.
Context {A : Type}.
Implicit Types l : list A.

Lemma slice_start_le start_idx l : slice_start start_idx l <= length l.
Proof. unfold slice_start, slice_bound. case_match; lia. Qed.

Lemma slice_stop_le end_idx l : slice_stop end_idx l <= length l.
Proof. unfold slice_stop, slice_bound. case_match; lia. Qed.

Lemma length_slice start_idx end_idx l :
  length (slice start_idx end_idx l)
  = slice_stop end_idx l - slice_start start_idx l.
Proof.
  unfold slice. rewrite length_take, length_drop.
  pose proof (slice_stop_le end_idx l). lia.
Qed.

(** The bounds of a slice depend on the length of the sequence only. *)
Lemma slice_start_length {B} start_idx l (l' : list B) :
  length l = length l' -> slice_start start_idx l = slice_start start_idx l'.
Proof. unfold slice_start. by intros ->. Qed.

Lemma slice_stop_length {B} end_idx l (l' : list B) :
  length l = length l' -> slice_stop end_idx l = slice_stop end_idx l'.
Proof. unfold slice_stop. by intros ->. Qed.

Lemma lookup_slice start_idx end_idx l j :
  j < length (slice start_idx end_idx l) ->
  slice start_idx end_idx l !! j = l !! (slice_start start_idx l + j).
Proof.
  rewrite length_slice. intros Hj. unfold slice.
  rewrite lookup_take_lt by lia. apply lookup_drop.
Qed.

Lemma slice_start_nonneg start_idx end_idx l :
  (0 <= start_idx)%Z -> slice start_idx end_idx l <> [] ->
  slice_start start_idx l = Z.to_nat start_idx.
Proof.
  intros Hs Hne.
  assert (0 < length (slice start_idx end_idx l)) as Hlen
    by (destruct (slice start_idx end_idx l); [done | simpl; lia]).
  rewrite length_slice in Hlen.
  pose proof (slice_stop_le end_idx l).
  revert Hlen. unfold slice_start, slice_bound.
  destruct (Z.ltb_spec start_idx 0); lia.
Qed.
End SliceFacts.

(** ** Tokenizing and validating *)

Section TokenizeFacts.
Import HfModels.
Context {F : Type}.
Implicit Types (self : Scorer F) (inputs : list string) (w : World).

Lemma after_nil w : after [] w = w.
Proof. destruct w. unfold after. simpl. by rewrite app_nil_r. Qed.

Lemma after_after es1 es2 w : after es2 (after es1 w) = after (es1 ++ es2) w.
Proof. unfold after. simpl. by rewrite app_assoc. Qed.

Lemma leb_is_within_limit self text :
  (Z.of_nat (length (tok_encode (tokenizer self) text)) <=? max_input_length self)%Z
  = is_within_limit self text.
Proof.
  unfold is_within_limit.
  destruct (Z.leb_spec (Z.of_nat (length (tok_encode (tokenizer self) text)))
              (max_input_length self)).
  - by rewrite bool_decide_eq_true_2.
  - rewrite bool_decide_eq_false_2; [done | lia].
Qed.

Lemma validate_inputs_loop_run self inputs :
  forall validation_results w,
    _validate_inputs_loop self inputs validation_results w
    = (Ok (validation_results ++ map (is_within_limit self) inputs),
       after (map TokenizerEncode inputs) w).
Proof.
  induction inputs as [|input_str inputs IH]; intros acc w.
  - simpl. by rewrite app_nil_r, after_nil.
  - cbn [_validate_inputs_loop].
    erewrite bind_Ok; [|reflexivity].
    rewrite IH, leb_is_within_limit. cbn [map].
    rewrite <- app_assoc. f_equal.
    unfold after, set_logging_level. cbn [trace logging_level].
    by rewrite <- app_assoc.
Qed.

Lemma validate_inputs_run self inputs w :
  _validate_inputs self inputs w
  = (Ok (map (is_within_limit self) inputs), after (map TokenizerEncode inputs) w).
Proof. unfold _validate_inputs. by rewrite validate_inputs_loop_run. Qed.

Lemma forallb_id_map {X} (f : X -> bool) (l : list X) :
  forallb id (map f l) = forallb f l.
Proof. induction l as [|x l IH]; simpl; [done | by rewrite IH]. Qed.

(** [_tokenize], run: one call of the tokenizer on the batch, then, unless
    the strategy is ['truncate'], one [encode] per text. *)
Lemma tokenize_run self inputs w :
  _tokenize self inputs w =
    let truncated_tokens :=
      tok_call (tokenizer self) inputs true (Some (max_input_length self)) in
    let call := TokenizerCall inputs (max_input_length self) in
    if String.eqb (overflow_strategy self) "truncate"
    then (Ok (truncated_tokens, replicate (length inputs) true), after [call] w)
    else
      let w' := after (call :: map TokenizerEncode inputs) w in
      if String.eqb (overflow_strategy self) "raise"
         && negb (forallb (is_within_limit self) inputs)
      then (Raise (ValueError "Some of the inputs are too long."), w')
      else if String.eqb (overflow_strategy self) "nullify"
           then (Ok (truncated_tokens, map (is_within_limit self) inputs), w')
           else (Raise AssertionError, w').
Proof.
  unfold _tokenize. erewrite bind_Ok; [|reflexivity].
  change {| trace := trace w ++ [TokenizerCall inputs (max_input_length self)];
            logging_level := logging_level w |}
    with (after [TokenizerCall inputs (max_input_length self)] w).
  cbn zeta. destruct (String.eqb (overflow_strategy self) "truncate"); [done|].
  erewrite bind_Ok; [|apply validate_inputs_run].
  rewrite forallb_id_map, after_after. cbn [app].
  by repeat case_match.
Qed.

Lemma filter_is_forward_encodes inputs :
  filter (fun e => is_forward e = true) (map TokenizerEncode inputs) = [].
Proof.
  induction inputs as [|s inputs IH]; [done|].
  cbn [map]. rewrite filter_cons_False; [done | by simpl].
Qed.

(** No event of tokenizing is a call of the model. *)
Lemma tokenize_no_forward self inputs w r w' :
  _tokenize self inputs w = (r, w') ->
  filter (fun e => is_forward e = true) (trace w')
  = filter (fun e => is_forward e = true) (trace w).
Proof.
  rewrite tokenize_run. cbn zeta.
  assert (forall es, filter (fun e => is_forward e = true) es = [] ->
            filter (fun e => is_forward e = true) (trace (after es w))
            = filter (fun e => is_forward e = true) (trace w)) as Hafter.
  { intros es Hes. unfold after. cbn [trace].
    by rewrite filter_app, Hes, app_nil_r. }
  assert (filter (fun e => is_forward e = true)
            (TokenizerCall inputs (max_input_length self)
               :: map TokenizerEncode inputs) = []) as Hall.
  { rewrite filter_cons_False by (by simpl). apply filter_is_forward_encodes. }
  repeat case_match; intros [= <- <-]; apply Hafter; done.
Qed.
End TokenizeFacts.

(** ** From logits to scores *)

Section ScoreFacts.
Import HfModels.
Context {F : Type} `{Torch F}.
Implicit Types (self : Scorer F) (probs logits : Tensor2 F) (w : World).

Lemma column_Ok probs i :
  i < ncols probs ->
  column probs i = Ok (map (fun r => default Fzero (r !! i)) (rows probs)).
Proof. intros Hi. unfold column. by rewrite decide_True. Qed.

Lemma column_Raise probs i :
  ncols probs <= i -> column probs i = Raise IndexError.
Proof. intros Hi. unfold column. rewrite decide_False; [done | lia]. Qed.

Lemma dot_from_nil_r acc (probs : list F) : dot_from acc probs [] = acc.
Proof. unfold dot_from. by destruct probs. Qed.

Lemma dot_from_cons acc p (probs : list F) weight weights :
  dot_from acc (p :: probs) (weight :: weights)
  = dot_from (Fadd acc (Fmul p weight)) probs weights.
Proof. reflexivity. Qed.

Lemma softmax_wf `{!TorchLaws F} logits : tensor_wf logits -> tensor_wf (softmax logits).
Proof.
  unfold tensor_wf, softmax. cbn [rows ncols]. intros Hwf.
  apply Forall_map. eapply Forall_impl; [exact Hwf|].
  intros r Hr. cbn. by rewrite softmax_row_length.
Qed.

(** The loop adds, to the score of every row, the row's entries from column
    [i] on, each times its weight. *)
Lemma logits_to_scores_loop_Ok probs :
  tensor_wf probs ->
  forall class_weights i scores,
    i + length class_weights <= ncols probs ->
    length scores = length (rows probs) ->
    _logits_to_scores_loop probs i class_weights scores
    = Ok (zip_with (fun acc r => dot_from acc (drop i r) class_weights)
            scores (rows probs)).
Proof.
  intros Hwf class_weights.
  induction class_weights as [|weight class_weights IH]; intros i scores Hi Hlen.
  - cbn [_logits_to_scores_loop]. f_equal. apply list_eq. intros j.
    rewrite lookup_zip_with.
    destruct (scores !! j) as [a|] eqn:Ha; [|done]. cbn.
    destruct (lookup_lt_is_Some_2 (rows probs) j) as [r Hr].
    { rewrite <- Hlen. by eapply lookup_lt_Some. }
    rewrite Hr. cbn. by rewrite dot_from_nil_r.
  - cbn [_logits_to_scores_loop length] in *.
    rewrite column_Ok by lia. cbn [rbind].
    rewrite IH; [| lia | by rewrite length_zip_with, !length_map; lia].
    f_equal. apply list_eq. intros j.
    rewrite !lookup_zip_with, !list_lookup_fmap.
    destruct (rows probs !! j) as [r|] eqn:Hr; cbn.
    + destruct (scores !! j) as [a|]; [|done]. cbn. f_equal.
      assert (length r = ncols probs) as Hr'.
      { eapply Forall_lookup_1 in Hwf; [exact Hwf | exact Hr]. }
      destruct (lookup_lt_is_Some_2 r i) as [x Hx]; [lia|].
      rewrite Hx. cbn. by rewrite (drop_S r x i Hx), dot_from_cons.
    + by destruct (scores !! j).
Qed.

(** A weight beyond the last class is an index out of range. *)
Lemma logits_to_scores_loop_Raise probs :
  forall class_weights i scores,
    i <= ncols probs ->
    ncols probs < i + length class_weights ->
    _logits_to_scores_loop probs i class_weights scores = Raise IndexError.
Proof.
  intros class_weights.
  induction class_weights as [|weight class_weights IH]; intros i scores Hi Hlen.
  - cbn [length] in Hlen. lia.
  - cbn [_logits_to_scores_loop length] in *.
    destruct (decide (i < ncols probs)) as [Hlt|Hge].
    + rewrite column_Ok by done. cbn [rbind]. apply IH; lia.
    + rewrite column_Raise by lia. done.
Qed.

Lemma zip_with_replicate_l {X Y Z'} (f : X -> Y -> Z') x (l : list Y) :
  zip_with f (replicate (length l) x) l = map (f x) l.
Proof. induction l as [|y l IH]; cbn; [done | by rewrite IH]. Qed.

(** [_logits_to_scores] when there are no more weights than classes: the
    weighted sum of each row's probabilities over the classes that have a
    weight. *)
Lemma logits_to_scores_Ok `{!TorchLaws F} self logits :
  tensor_wf logits ->
  length (class_weights self) <= ncols logits ->
  _logits_to_scores self logits
  = Ok (map (fun r => dot (softmax_row r) (class_weights self)) (rows logits)).
Proof.
  intros Hwf Hlen. unfold _logits_to_scores. cbn zeta.
  rewrite logits_to_scores_loop_Ok;
    [| by apply softmax_wf | done | by rewrite length_replicate].
  f_equal. rewrite zip_with_replicate_l. cbn [softmax rows].
  rewrite map_map. apply map_ext. intros r. by rewrite drop_0.
Qed.

Lemma logits_to_scores_Raise self logits :
  ncols logits < length (class_weights self) ->
  _logits_to_scores self logits = Raise IndexError.
Proof.
  intros Hlen. unfold _logits_to_scores. cbn zeta.
  apply logits_to_scores_loop_Raise; cbn [softmax ncols]; lia.
Qed.

(** The loop of [_score_tokens] within the list of scores: the entries of
    the invalid texts become [None], the others stay. *)
Lemma score_tokens_loop_Ok (validation_results : list bool) :
  forall i (scores : list (option F)),
    i + length validation_results <= length scores ->
    exists out,
      _score_tokens_loop i validation_results scores = Ok out
      /\ length out = length scores
      /\ forall j,
           out !! j =
             if decide (i <= j /\ validation_results !! (j - i) = Some false)
             then Some None else scores !! j.
Proof.
  induction validation_results as [|v flags IH]; intros i scores Hlen.
  - exists scores. split_and!; [done..|]. intros j.
    rewrite decide_False; [done|]. intros [_ Hj]. by rewrite lookup_nil in Hj.
  - cbn [_score_tokens_loop length] in *. destruct v; cbn [negb].
    + destruct (IH (S i) scores) as (out & Hrun & Hout & Hlook); [lia|].
      exists out. split_and!; [done..|]. intros j. rewrite Hlook.
      destruct (decide (i = j)) as [->|Hne].
      * rewrite !decide_False; [done | | lia].
        rewrite Nat.sub_diag. cbn. intros [_ [=]].
      * destruct (decide (i <= j)) as [Hle|Hgt].
        -- replace (j - i) with (S (j - S i)) by lia. cbn [lookup list_lookup].
           destruct (decide (S i <= j /\ flags !! (j - S i) = Some false))
             as [[_ Hf]|Hnf].
           ++ rewrite decide_True; done.
           ++ rewrite decide_False; [done|]. intros [_ Hf]. apply Hnf.
              split; [lia | done].
        -- rewrite !decide_False; [done | lia..].
    + rewrite decide_True by lia.
      destruct (IH (S i) (<[i:=None]> scores)) as (out & Hrun & Hout & Hlook).
      { rewrite length_insert. lia. }
      exists out. split_and!; [done | by rewrite Hout, length_insert |].
      intros j. rewrite Hlook.
      destruct (decide (i = j)) as [->|Hne].
      * rewrite decide_False by lia. rewrite decide_True.
        -- apply list_lookup_insert_eq. lia.
        -- rewrite Nat.sub_diag. done.
      * rewrite list_lookup_insert_ne by done.
        destruct (decide (i <= j)) as [Hle|Hgt].
        -- replace (j - i) with (S (j - S i)) by lia. cbn [lookup list_lookup].
           destruct (decide (S i <= j /\ flags !! (j - S i) = Some false))
             as [[_ Hf]|Hnf].
           ++ rewrite decide_True; done.
           ++ rewrite decide_False; [done|]. intros [_ Hf]. apply Hnf.
              split; [lia | done].
        -- rewrite !decide_False; [done | lia..].
Qed.

(** The loop over as many flags as there are scores. *)
Lemma score_tokens_loop_nullified (validation_results : list bool) (scores : list F) :
  length validation_results = length scores ->
  _score_tokens_loop 0 validation_results (map Some scores)
  = Ok (nullified validation_results scores).
Proof.
  intros Hlen.
  destruct (score_tokens_loop_Ok validation_results 0 (map Some scores))
    as (out & -> & Hout & Hlook).
  { rewrite length_map. lia. }
  f_equal. apply list_eq. intros j. rewrite Hlook. unfold nullified.
  rewrite lookup_zip_with, list_lookup_fmap, Nat.sub_0_r.
  destruct (validation_results !! j) as [[|]|] eqn:Hv; cbn.
  - rewrite decide_False; [|intros [_ [=]]]. by destruct (scores !! j).
  - rewrite decide_True by (split; [lia | done]).
    destruct (lookup_lt_is_Some_2 scores j) as [x ->]; [|done].
    rewrite <- Hlen. by eapply lookup_lt_Some.
  - rewrite decide_False; [|intros [_ [=]]].
    rewrite lookup_ge_None_2; [done|].
    rewrite <- Hlen. by apply lookup_ge_None_1.
Qed.

(** [_score_tokens], run: one call of the model, then the reduction and
    the nullifying. *)
Lemma score_tokens_run self (input_tokens : Batch) (validation_results : list bool) w :
  _score_tokens self (input_tokens, validation_results) w
  = (rbind (_logits_to_scores self (forward (model self) input_tokens))
       (fun scores => _score_tokens_loop 0 validation_results (map Some scores)),
     after [ModelForward input_tokens] w).
Proof.
  unfold _score_tokens. erewrite bind_Ok; [|reflexivity].
  change {| trace := trace w ++ [ModelForward input_tokens];
            logging_level := logging_level w |}
    with (after [ModelForward input_tokens] w).
  cbn zeta. unfold bind, lift.
  by destruct (_logits_to_scores self (forward (model self) input_tokens)).
Qed.

Lemma score_tokens_Ok `{!TorchLaws F} self (input_tokens : Batch)
    (validation_results : list bool) w :
  let logits := forward (model self) input_tokens in
  tensor_wf logits ->
  length (class_weights self) <= ncols logits ->
  length validation_results = length (rows logits) ->
  _score_tokens self (input_tokens, validation_results) w
  = (Ok (nullified validation_results
           (map (fun r => dot (softmax_row r) (class_weights self)) (rows logits))),
     after [ModelForward input_tokens] w).
Proof.
  intros logits Hwf Hcw Hlen. rewrite score_tokens_run. f_equal.
  fold logits. rewrite logits_to_scores_Ok by done. cbn [rbind].
  apply score_tokens_loop_nullified. by rewrite length_map.
Qed.
End ScoreFacts.

(** ** The overflow strategies *)

Section Strategies.
Import HfModels.
Context {F : Type}.
Implicit Types (self : Scorer F) (inputs : list string) (w : World).

(** C7.  [_validate_inputs] marks a text valid if and only if the token
    count of [tokenizer.encode(text)] (no padding, no truncation) is at most
    [max_input_length].  It does nothing else than encode each text once, in
    order: the trace grows by these calls and the logging level is in the
    end what it was. *)
Theorem validate_inputs_within_limit self inputs w :
  exists flags w',
    _validate_inputs self inputs w = (Ok flags, w')
    /\ length flags = length inputs
    /\ (forall i text, inputs !! i = Some text ->
          exists valid,
            flags !! i = Some valid
            /\ (valid = true <->
                (Z.of_nat (length (tok_encode (tokenizer self) text))
                   <= max_input_length self)%Z))
    /\ trace w' = trace w ++ map TokenizerEncode inputs
    /\ logging_level w' = logging_level w.
Proof.
  exists (map (is_within_limit self) inputs), (after (map TokenizerEncode inputs) w).
  split_and!; [apply validate_inputs_run | by rewrite length_map | | done..].
  intros i text Hi. exists (is_within_limit self text). split.
  - by rewrite list_lookup_fmap, Hi.
  - unfold is_within_limit. apply bool_decide_eq_true.
Qed.

(** C1.  Under the ['raise'] strategy [_tokenize] never returns a batch.
    If some text is too long it raises the [ValueError] of the length
    check; if every text fits it falls through to the assertion that the
    strategy is ['nullify'] and raises [AssertionError].  In both cases the
    model has not been called. *)
Theorem tokenize_raise_never_returns self inputs w :
  overflow_strategy self = "raise" ->
  exists w',
    _tokenize self inputs w
    = (Raise (if forallb (is_within_limit self) inputs
              then AssertionError
              else ValueError "Some of the inputs are too long."), w')
    /\ filter (fun e => is_forward e = true) (trace w')
       = filter (fun e => is_forward e = true) (trace w).
Proof.
  intros Hraise.
  destruct (_tokenize self inputs w) as [r w'] eqn:Hrun.
  exists w'. split; [|by eapply tokenize_no_forward].
  rewrite <- Hrun. rewrite tokenize_run in *. cbn zeta in *.
  rewrite Hraise in *. cbn in *.
  destruct (forallb (is_within_limit self) inputs); cbn in *; congruence.
Qed.

(** Under ['truncate'] every flag is [True] and the only event is the call
    of the tokenizer on the batch. *)
Lemma tokenize_truncate_run self inputs w :
  overflow_strategy self = "truncate" ->
  _tokenize self inputs w
  = (Ok (tok_call (tokenizer self) inputs true (Some (max_input_length self)),
         replicate (length inputs) true),
     after [TokenizerCall inputs (max_input_length self)] w).
Proof. intros Hs. rewrite tokenize_run. cbn zeta. by rewrite Hs. Qed.

Lemma tokenize_nullify_run self inputs w :
  overflow_strategy self = "nullify" ->
  _tokenize self inputs w
  = (Ok (tok_call (tokenizer self) inputs true (Some (max_input_length self)),
         map (is_within_limit self) inputs),
     after (TokenizerCall inputs (max_input_length self)
              :: map TokenizerEncode inputs) w).
Proof. intros Hs. rewrite tokenize_run. cbn zeta. by rewrite Hs. Qed.

(** A strategy that is none of the three runs the validation and then
    fails the assertion. *)
Lemma tokenize_unknown_run self inputs w :
  overflow_strategy self <> "truncate" ->
  overflow_strategy self <> "raise" ->
  overflow_strategy self <> "nullify" ->
  _tokenize self inputs w
  = (Raise AssertionError,
     after (TokenizerCall inputs (max_input_length self)
              :: map TokenizerEncode inputs) w).
Proof.
  intros Ht Hr Hn. rewrite tokenize_run. cbn zeta.
  apply String.eqb_neq in Ht, Hr, Hn. by rewrite Ht, Hr, Hn.
Qed.

(** What [_tokenize] returns when it returns. *)
Lemma tokenize_inv_Ok self inputs w input_tokens validation_results w' :
  _tokenize self inputs w = (Ok (input_tokens, validation_results), w') ->
  input_tokens
  = tok_call (tokenizer self) inputs true (Some (max_input_length self))
  /\ ((overflow_strategy self = "truncate"
       /\ validation_results = replicate (length inputs) true)
      \/ (overflow_strategy self = "nullify"
          /\ validation_results = map (is_within_limit self) inputs)).
Proof.
  rewrite tokenize_run. cbn zeta.
  destruct (String.eqb_spec (overflow_strategy self) "truncate") as [Ht|Ht].
  { intros [= <- <- _]. split; [done | by left]. }
  destruct (String.eqb (overflow_strategy self) "raise"
            && negb (forallb (is_within_limit self) inputs)); [discriminate|].
  destruct (String.eqb_spec (overflow_strategy self) "nullify") as [Hn|Hn];
    [|discriminate].
  intros [= <- <- _]. split; [done | by right].
Qed.

(** [__init__] checks neither the strategy nor the weights: with the pair
    fetched it returns the scorer. *)
Lemma init_run (fetch_model : string -> string -> result (Tokenizer * Model F))
    language metric (class_weights : list F) strategy max_length tok mdl w :
  fetch_model language metric = Ok (tok, mdl) ->
  __init__ fetch_model language metric class_weights strategy max_length w
  = (Ok {| overflow_strategy := strategy;
           tokenizer := tok;
           model := mdl;
           class_weights := class_weights;
           max_input_length :=
             match max_length with
             | Some n => n
             | None => max_position_embeddings mdl
             end |},
     after [FetchModel language metric] w).
Proof.
  intros Hfetch. unfold __init__. erewrite bind_Ok; [|reflexivity].
  erewrite bind_Ok; [|unfold lift; by rewrite Hfetch]. reflexivity.
Qed.

(** C10.  A strategy other than ['truncate'], ['raise'] and ['nullify'] is
    stored by [__init__] as it is, and [_tokenize] on a non-empty list of
    texts then validates the texts, reaches the assertion and raises
    [AssertionError]: no batch comes back. *)
Theorem tokenize_unknown_strategy_asserts
    (fetch_model : string -> string -> result (Tokenizer * Model F))
    language metric (class_weights : list F) strategy max_length tok mdl
    inputs w :
  strategy <> "truncate" -> strategy <> "raise" -> strategy <> "nullify" ->
  fetch_model language metric = Ok (tok, mdl) ->
  inputs <> [] ->
  exists self w1,
    __init__ fetch_model language metric class_weights strategy max_length w
    = (Ok self, w1)
    /\ overflow_strategy self = strategy
    /\ _tokenize self inputs w1
       = (Raise AssertionError,
          after (TokenizerCall inputs (max_input_length self)
                   :: map TokenizerEncode inputs) w1).
Proof.
  intros Ht Hr Hn Hfetch _.
  eexists _, _. split; [by apply init_run|]. split; [done|].
  by apply tokenize_unknown_run.
Qed.
End Strategies.

(** ** Scoring a tokenized batch *)

Section Scoring.
Import HfModels.
Context {F : Type} `{Torch F}.
Implicit Types (self : Scorer F) (inputs : list string) (w : World).

Lemma score_tokens_loop_all_valid n :
  forall i (scores : list (option F)),
    _score_tokens_loop i (replicate n true) scores = Ok scores.
Proof. induction n as [|n IH]; intros i scores; cbn; [done | apply IH]. Qed.

(** An entry that the loop leaves as [None] was [None] before or belongs
    to an invalid text. *)
Lemma score_tokens_loop_None_inv (validation_results : list bool) :
  forall i (scores out : list (option F)),
    _score_tokens_loop i validation_results scores = Ok out ->
    forall j, out !! j = Some None ->
      scores !! j = Some None
      \/ (i <= j /\ validation_results !! (j - i) = Some false).
Proof.
  induction validation_results as [|v flags IH]; intros i scores out Hrun j Hj.
  - cbn in Hrun. injection Hrun as <-. by left.
  - cbn [_score_tokens_loop] in Hrun.
    assert (forall scores',
      _score_tokens_loop (S i) flags scores' = Ok out ->
      scores' !! j = Some None
      \/ (i <= j /\ (v :: flags) !! (j - i) = Some false)) as Hnext.
    { intros scores' Hrun'.
      destruct (IH _ _ _ Hrun' j Hj) as [Hs|[Hle Hf]]; [by left|].
      right. split; [lia|]. by replace (j - i) with (S (j - S i)) by lia. }
    destruct v; cbn [negb] in Hrun.
    + by apply Hnext.
    + destruct (decide (i < length scores)) as [Hi|Hi]; [|discriminate].
      destruct (Hnext _ Hrun) as [Hs|Hr]; [|by right].
      destruct (decide (i = j)) as [->|Hne].
      * right. split; [lia|]. by rewrite Nat.sub_diag.
      * left. by rewrite list_lookup_insert_ne in Hs.
Qed.

Lemma dot_from_take acc (probs weights : list F) :
  dot_from acc (take (length weights) probs) weights = dot_from acc probs weights.
Proof.
  revert acc probs.
  induction weights as [|x weights IH]; intros acc probs.
  - by rewrite !dot_from_nil_r.
  - destruct probs as [|p probs]; [done|].
    cbn [length take]. rewrite !dot_from_cons. apply IH.
Qed.

(** Under ['truncate'] the scores come back as [_logits_to_scores] made
    them, whatever the model returned. *)
Lemma score_tokens_all_valid self (input_tokens : Batch) n w :
  _score_tokens self (input_tokens, replicate n true) w
  = (rbind (_logits_to_scores self (forward (model self) input_tokens))
       (fun scores => Ok (map Some scores)),
     after [ModelForward input_tokens] w).
Proof.
  rewrite score_tokens_run. f_equal.
  destruct (_logits_to_scores self (forward (model self) input_tokens)); [|done].
  cbn [rbind]. apply score_tokens_loop_all_valid.
Qed.

Lemma score_tokens_inv_Ok self (input_tokens : Batch) (validation_results : list bool)
    w out w' :
  _score_tokens self (input_tokens, validation_results) w = (Ok out, w') ->
  exists scores,
    _logits_to_scores self (forward (model self) input_tokens) = Ok scores
    /\ _score_tokens_loop 0 validation_results (map Some scores) = Ok out.
Proof.
  rewrite score_tokens_run. intros [= Hrun _].
  destruct (_logits_to_scores self (forward (model self) input_tokens))
    as [scores|]; [|discriminate].
  by exists scores.
Qed.

Lemma logits_to_scores_inv_Ok self logits scores :
  _logits_to_scores self logits = Ok scores ->
  length (class_weights self) <= ncols logits.
Proof.
  intros Hrun. destruct (decide (length (class_weights self) <= ncols logits));
    [done|].
  rewrite logits_to_scores_Raise in Hrun by lia. discriminate.
Qed.

(** C3.  Under ['truncate'] [_tokenize] returns the truncated batch with
    every flag [True]; it encodes no text on its own, so that no length is
    checked.  Whatever [_score_tokens] then returns for this batch holds no
    [None], whether or not a text is longer than [max_input_length]; and it
    does return a score per text if the model gives one row of logits per
    text and has a class for every weight. *)
Theorem tokenize_truncate_all_valid `{!TorchLaws F} self inputs w :
  overflow_strategy self = "truncate" ->
  let tokens :=
    tok_call (tokenizer self) inputs true (Some (max_input_length self)) in
  let flags := replicate (length inputs) true in
  let w1 := after [TokenizerCall inputs (max_input_length self)] w in
  let logits := forward (model self) tokens in
  _tokenize self inputs w = (Ok (tokens, flags), w1)
  /\ Forall (fun valid => valid = true) flags
  /\ filter (fun e => is_encode e = true) (trace w1)
     = filter (fun e => is_encode e = true) (trace w)
  /\ (forall w' out w2,
        _score_tokens self (tokens, flags) w' = (Ok out, w2) ->
        forall i, out !! i <> Some None)
  /\ (tensor_wf logits ->
      length (rows logits) = length inputs ->
      length (class_weights self) <= ncols logits ->
      exists scores,
        _score_tokens self (tokens, flags) w1
        = (Ok (map Some scores), after [ModelForward tokens] w1)
        /\ length scores = length inputs).
Proof.
  intros Hs tokens flags w1 logits. split_and!.
  - by apply tokenize_truncate_run.
  - apply Forall_forall. intros valid Hin.
    by apply elem_of_replicate in Hin as [-> _].
  - unfold w1, after. cbn [trace]. rewrite filter_app.
    rewrite filter_cons_False by (by cbn). by rewrite filter_nil, app_nil_r.
  - intros w' out w2. unfold flags. rewrite score_tokens_all_valid.
    intros [= Hout _] i Hi.
    destruct (_logits_to_scores self (forward (model self) tokens)) as [scores|];
      [|discriminate].
    cbn in Hout. injection Hout as <-.
    rewrite list_lookup_fmap in Hi. by destruct (scores !! i).
  - intros Hwf Hrows Hcw. unfold flags. rewrite score_tokens_all_valid.
    fold logits. rewrite logits_to_scores_Ok by done. cbn [rbind].
    eexists. split; [done|]. by rewrite length_map.
Qed.

(** C2.  [_score_tokens] on a batch whose flags match the rows of the
    logits returns [None] at every index whose flag is false and, at every
    index whose flag is true, the score that [_logits_to_scores] computed.
    A [None] in what tokenizing and then scoring returns stands at the
    index of a text that is too long, and the strategy is ['nullify'];
    under ['nullify'] a text that is too long does not stop [_tokenize],
    which returns the whole batch with its flags. *)
Theorem score_tokens_nullifies_invalid `{!TorchLaws F} self :
  (forall (input_tokens : Batch) (flags : list bool) w,
     let logits := forward (model self) input_tokens in
     tensor_wf logits ->
     length (class_weights self) <= ncols logits ->
     length flags = length (rows logits) ->
     exists scores out,
       _logits_to_scores self logits = Ok scores
       /\ _score_tokens self (input_tokens, flags) w
          = (Ok out, after [ModelForward input_tokens] w)
       /\ length out = length flags
       /\ forall i,
            (flags !! i = Some false -> out !! i = Some None)
            /\ (flags !! i = Some true ->
                exists score, scores !! i = Some score
                              /\ out !! i = Some (Some score)))
  /\ (forall inputs w tokens w1 out w2,
        _tokenize self inputs w = (Ok tokens, w1) ->
        _score_tokens self tokens w1 = (Ok out, w2) ->
        forall i, out !! i = Some None ->
          overflow_strategy self = "nullify"
          /\ exists text, inputs !! i = Some text
                          /\ is_within_limit self text = false)
  /\ (forall inputs w,
        overflow_strategy self = "nullify" ->
        exists tokens w1,
          _tokenize self inputs w
          = (Ok (tokens, map (is_within_limit self) inputs), w1)).
Proof.
  split_and!.
  - intros input_tokens flags w logits Hwf Hcw Hlen. subst logits.
    set (scores := map (fun r => dot (softmax_row r) (class_weights self))
                     (rows (forward (model self) input_tokens))).
    exists scores, (nullified flags scores).
    split; [by apply logits_to_scores_Ok|].
    split; [by apply score_tokens_Ok|].
    assert (length scores = length flags) as Hscores
      by (unfold scores; rewrite length_map; lia).
    split; [unfold nullified; rewrite length_zip_with; lia|].
    intros i. unfold nullified. rewrite lookup_zip_with.
    assert (forall v, flags !! i = Some v -> exists x, scores !! i = Some x) as Hx.
    { intros v Hv. apply lookup_lt_is_Some_2. rewrite Hscores.
      by eapply lookup_lt_Some. }
    split; intros Hf; destruct (Hx _ Hf) as [x Hx']; rewrite Hf, Hx'; cbn;
      [done | by exists x].
  - intros inputs w [input_tokens flags] w1 out w2 Htok Hscore i Hi.
    apply tokenize_inv_Ok in Htok as [_ Hflags].
    apply score_tokens_inv_Ok in Hscore as (scores & _ & Hloop).
    destruct (score_tokens_loop_None_inv _ _ _ _ Hloop i Hi) as [Hs|[_ Hf]].
    { rewrite list_lookup_fmap in Hs. by destruct (scores !! i). }
    rewrite Nat.sub_0_r in Hf.
    destruct Hflags as [[_ ->]|[Hn ->]].
    + apply lookup_replicate in Hf as [[=] _].
    + split; [done|]. rewrite list_lookup_fmap in Hf.
      destruct (inputs !! i) as [text|]; [|done].
      exists text. split; [done|]. by injection Hf.
  - intros inputs w Hn. eexists _, _. by apply tokenize_nullify_run.
Qed.
End Scoring.

(** ** Order and length, weights, slices *)

Section Pipeline.
Import HfModels.
Context {F : Type} `{Torch F}.
Implicit Types (self : Scorer F) (inputs : list string) (w : World).

(** C4.  The flags of [_validate_inputs] are as many as the texts, and the
    flag at index [i] is the outcome for the text at index [i].  When the
    model returns one row of logits per text, what [_tokenize] and then
    [_score_tokens] return has one entry per text, and the entry at index
    [i] is made of the flag of text [i] and of row [i] of the logits; under
    ['truncate'] and ['nullify'], and with a class for every weight, they do
    return. *)
Theorem scores_aligned_with_inputs `{!TorchLaws F} self inputs w :
  let tokens :=
    tok_call (tokenizer self) inputs true (Some (max_input_length self)) in
  let logits := forward (model self) tokens in
  (exists flags w',
     _validate_inputs self inputs w = (Ok flags, w')
     /\ length flags = length inputs
     /\ forall i text, inputs !! i = Some text ->
          flags !! i = Some (is_within_limit self text))
  /\ (tensor_wf logits ->
      length (rows logits) = length inputs ->
      forall batch flags w1 out w2,
        _tokenize self inputs w = (Ok (batch, flags), w1) ->
        _score_tokens self (batch, flags) w1 = (Ok out, w2) ->
        length flags = length inputs
        /\ length out = length inputs
        /\ forall i text, inputs !! i = Some text ->
             exists valid r,
               flags !! i = Some valid
               /\ (overflow_strategy self = "nullify" ->
                   valid = is_within_limit self text)
               /\ rows logits !! i = Some r
               /\ out !! i
                  = Some (if valid
                          then Some (dot (softmax_row r) (class_weights self))
                          else None))
  /\ (tensor_wf logits ->
      length (rows logits) = length inputs ->
      length (class_weights self) <= ncols logits ->
      overflow_strategy self = "truncate" \/ overflow_strategy self = "nullify" ->
      exists flags w1 out w2,
        _tokenize self inputs w = (Ok (tokens, flags), w1)
        /\ _score_tokens self (tokens, flags) w1 = (Ok out, w2)).
Proof.
  intros tokens logits. split_and!.
  - eexists _, _. split; [apply validate_inputs_run|].
    split; [by rewrite length_map|].
    intros i text Hi. by rewrite list_lookup_fmap, Hi.
  - intros Hwf Hrows batch flags w1 out w2 Htok Hscore.
    apply tokenize_inv_Ok in Htok as [-> Hflags]. fold tokens in Hscore.
    assert (length flags = length inputs) as Hlen.
    { destruct Hflags as [[_ ->]|[_ ->]];
        [by rewrite length_replicate | by rewrite length_map]. }
    assert (length (class_weights self) <= ncols logits) as Hcw.
    { apply score_tokens_inv_Ok in Hscore as (scores & Hscores & _).
      by eapply logits_to_scores_inv_Ok. }
    rewrite score_tokens_Ok in Hscore by (fold tokens logits; done || lia).
    injection Hscore as <- _. fold tokens logits.
    split; [done|]. unfold nullified.
    split; [rewrite length_zip_with, length_map; lia|].
    intros i text Hi.
    destruct (lookup_lt_is_Some_2 flags i) as [valid Hvalid].
    { rewrite Hlen. by eapply lookup_lt_Some. }
    destruct (lookup_lt_is_Some_2 (rows logits) i) as [r Hr].
    { rewrite Hrows. by eapply lookup_lt_Some. }
    exists valid, r. split_and!; [done | | done |].
    + intros Hn. destruct Hflags as [[Ht _]|[_ ->]]; [congruence|].
      rewrite list_lookup_fmap, Hi in Hvalid. by injection Hvalid.
    + rewrite lookup_zip_with, list_lookup_fmap, Hvalid, Hr. done.
  - intros Hwf Hrows Hcw Hs.
    assert (forall flags w1, length flags = length inputs ->
              exists out w2, _score_tokens self (tokens, flags) w1 = (Ok out, w2))
      as Hscore.
    { intros flags w1 Hlen. eexists _, _. apply score_tokens_Ok; try done.
      fold tokens logits. lia. }
    destruct Hs as [Ht|Hn].
    + destruct (Hscore (replicate (length inputs) true)
                  (after [TokenizerCall inputs (max_input_length self)] w))
        as (out & w2 & Hout); [by rewrite length_replicate|].
      eexists _, _, out, w2. split; [by apply tokenize_truncate_run | done].
    + destruct (Hscore (map (is_within_limit self) inputs)
                  (after (TokenizerCall inputs (max_input_length self)
                            :: map TokenizerEncode inputs) w))
        as (out & w2 & Hout); [by rewrite length_map|].
      eexists _, _, out, w2. split; [by apply tokenize_nullify_run | done].
Qed.

(** C6, as the code has it.  [__init__] checks neither the strategy nor the
    weights.  A strategy that is none of the three fails the assertion of
    the first [_tokenize]; more weights than classes are an index out of
    range in the first [_logits_to_scores]; fewer weights than classes are
    not noticed: the score is the weighted sum over the classes that have a
    weight. *)
Theorem configuration_is_checked_at_first_use `{!TorchLaws F}
    (fetch_model : string -> string -> result (Tokenizer * Model F))
    language metric (weights : list F) strategy max_length tok mdl w :
  fetch_model language metric = Ok (tok, mdl) ->
  exists self w1,
    __init__ fetch_model language metric weights strategy max_length w
    = (Ok self, w1)
    /\ overflow_strategy self = strategy
    /\ class_weights self = weights
    /\ (strategy <> "truncate" -> strategy <> "raise" -> strategy <> "nullify" ->
        forall inputs w', exists w'',
          _tokenize self inputs w' = (Raise AssertionError, w''))
    /\ (forall logits,
          ncols logits < length weights ->
          _logits_to_scores self logits = Raise IndexError)
    /\ (forall logits,
          tensor_wf logits ->
          length weights <= ncols logits ->
          _logits_to_scores self logits
          = Ok (map (fun r => dot (take (length weights) (softmax_row r)) weights)
                  (rows logits))).
Proof.
  intros Hfetch. eexists _, _. split; [by apply init_run|].
  cbn [overflow_strategy class_weights]. split_and!; [done..| | |].
  - intros Ht Hr Hn inputs w'. eexists. by apply tokenize_unknown_run.
  - intros logits Hlen. by apply logits_to_scores_Raise.
  - intros logits Hwf Hlen. rewrite logits_to_scores_Ok by done.
    cbn [class_weights]. f_equal. apply map_ext. intros r.
    unfold dot. by rewrite dot_from_take.
Qed.

(** C8.  [_slice_tokens] cuts every array of the batch and the list of
    flags at the same two bounds.  If all of them had the same length, they
    still have: the sliced batch has as many rows under every key as there
    are sliced flags, and position [j] of the slice holds, for the flags
    and for every array, the item at position [slice_start + j] of the
    original.  [slice_start] is [start_idx] itself when that is not
    negative, and [start_idx] counted from the end, as Python reads a
    negative index, when it is negative and within the list. *)
Theorem slice_tokens_consistent self (input_tokens : Batch)
    (validation_results : list bool) (start_idx end_idx : Z) :
  batch_len (length validation_results) input_tokens ->
  exists (sliced : Batch) (flags : list bool),
    _slice_tokens self (input_tokens, validation_results) start_idx end_idx
    = (sliced, flags)
    /\ flags = slice start_idx end_idx validation_results
    /\ dom sliced = dom input_tokens
    /\ (forall key value, input_tokens !! key = Some value ->
          sliced !! key = Some (slice start_idx end_idx value))
    /\ batch_len (length flags) sliced
    /\ (forall j, j < length flags ->
          let i := slice_start start_idx validation_results + j in
          flags !! j = validation_results !! i
          /\ ((0 <= start_idx)%Z -> i = Z.to_nat start_idx + j)
          /\ ((- Z.of_nat (length validation_results) <= start_idx < 0)%Z ->
              Z.of_nat i
              = (Z.of_nat (length validation_results) + start_idx + Z.of_nat j)%Z)
          /\ forall key value, input_tokens !! key = Some value ->
               exists value', sliced !! key = Some value'
                              /\ value' !! j = value !! i).
Proof.
  intros Hlen. eexists _, _. split; [reflexivity|].
  split; [done|]. split; [apply dom_fmap_L|].
  assert (forall key value, input_tokens !! key = Some value ->
            (slice start_idx end_idx <$> input_tokens) !! key
            = Some (slice start_idx end_idx value)) as Hkey.
  { intros key value Hv. by rewrite lookup_fmap, Hv. }
  assert (forall key value, input_tokens !! key = Some value ->
            length value = length validation_results) as Hrows.
  { intros key value Hv. by apply (Hlen key value). }
  split; [done|]. split.
  - intros key value'. rewrite lookup_fmap.
    destruct (input_tokens !! key) as [value|] eqn:Hv; [|done].
    intros [= <-]. rewrite !length_slice.
    by rewrite (slice_start_length start_idx value validation_results),
               (slice_stop_length end_idx value validation_results)
      by by eapply Hrows.
  - intros j Hj i. split_and!.
    + by apply lookup_slice.
    + intros Hs. unfold i. f_equal. eapply slice_start_nonneg; [done|].
      intros Hnil. rewrite Hnil in Hj. cbn in Hj. lia.
    + intros Hs. unfold i, slice_start, slice_bound.
      destruct (Z.ltb_spec start_idx 0); lia.
    + intros key value Hv. eexists. split; [by apply Hkey|].
      unfold i.
      rewrite <- (slice_start_length start_idx value validation_results)
        by by eapply Hrows.
      apply lookup_slice. rewrite length_slice.
      rewrite (slice_start_length start_idx value validation_results),
              (slice_stop_length end_idx value validation_results)
        by by eapply Hrows.
      by rewrite <- length_slice.
Qed.
End Pipeline.

(** C5.  [_logits_to_scores] returns, for every row of the logits, the dot
    product of the row's softmax and [class_weights], one weight per class,
    added up from the first class on in the arithmetic of the tensors.  That
    arithmetic is binary32: on the binary32 numbers next to the
    probabilities [0.2, 0.3, 0.5] the loop over the weights [0, 0.5, 1]
    gives the binary32 number next to 0.65, which is [10905190 * 2^-24], a
    little less than 0.65.  In exact arithmetic the same loop adds up to
    [0.3*0.5 + 0.5*1 = 0.65]. *)
Theorem logits_to_scores_dot_product :
  (forall (F : Type) (T : Torch F) (L : TorchLaws F)
          (self : HfModels.Scorer F) (logits : Tensor2 F),
     tensor_wf logits ->
     length (HfModels.class_weights self) = ncols logits ->
     HfModels._logits_to_scores self logits
     = Ok (map (fun r => dot (softmax_row r) (HfModels.class_weights self))
             (rows logits)))
  /\ (forall softmax_row : list SpecFloat.spec_float -> list SpecFloat.spec_float,
        Forall2 Float32.rounds [0.2; 0.3; 0.5]%Q Float32.probabilities
        /\ Forall2 (fun x f => Float32.to_Q f == x)%Q [0; 0.5; 1]%Q Float32.weights
        /\ exists score,
             @HfModels._logits_to_scores_loop _ (Float32.float32 softmax_row)
               {| ncols := 3; rows := [Float32.probabilities] |} 0
               Float32.weights [SpecFloat.S754_zero false]
             = Ok [score]
             /\ score
                = @dot _ (Float32.float32 softmax_row)
                    Float32.probabilities Float32.weights
             /\ score = SpecFloat.S754_finite false 10905190 (-24)
             /\ Float32.rounds 0.65 score
             /\ (Float32.to_Q score < 0.65)%Q)
  /\ (exists score,
        @HfModels._logits_to_scores_loop Q Toy.torch
          {| ncols := 3; rows := [[0.2; 0.3; 0.5]%Q] |} 0
          [0; 0.5; 1]%Q [@Fzero Q Toy.torch]
        = Ok [score]
        /\ score = @dot Q Toy.torch [0.2; 0.3; 0.5]%Q [0; 0.5; 1]%Q
        /\ (score == 0.3 * 0.5 + 0.5 * 1)%Q
        /\ (score == 0.65)%Q).
Proof.
  split_and!.
  - intros F T L self logits Hwf Hlen. apply logits_to_scores_Ok; [done | lia].
  - intros softmax_row. split_and!.
    + repeat constructor; first [reflexivity | discriminate].
    + repeat constructor.
    + eexists. split; [vm_compute; reflexivity|].
      split_and!; [reflexivity | reflexivity | | reflexivity].
      repeat split; first [reflexivity | discriminate].
  - eexists. split; [vm_compute; reflexivity|]. split_and!; reflexivity.
Qed.

(** ** The lazily loaded models *)

Section Cache.
Import ReferenceFreeTextQuality.
Context {F : Type} `{Torch F}.
Variable hub_tokenizer : nat -> string -> option Tokenizer.
Variable hub_model : nat -> string -> option (Model F).
Implicit Types (g : Globals F) (k : metric).

Local Abbreviation fetch := (fetch hub_tokenizer hub_model).
Local Abbreviation call := (call hub_tokenizer hub_model).
Local Abbreviation run_calls := (run_calls hub_tokenizer hub_model).

Local Ltac run :=
  unfold fetch, sentiment_models, fluency_models, bind, get, modify, ret, raise,
    AutoTokenizer_from_pretrained,
    AutoModelForSequenceClassification_from_pretrained;
  cbn.

Lemma paths_differ : _sentiment_model_path <> _fluency_model_path.
Proof. discriminate. Qed.

(** With both globals of a key set, a fetch returns them and changes
    nothing. *)
Lemma fetch_cached k g t m :
  cached_tokenizer k g = Some t ->
  cached_model k g = Some m ->
  fetch k g = (Ok (t, m), g).
Proof. destruct k; cbn; intros Ht Hm; run; rewrite Ht, Hm; cbn; by rewrite Ht, Hm. Qed.

(** A fetch that returns leaves both globals of its key set, to what it
    returned. *)
Lemma fetch_inv_Ok k g p g' :
  fetch k g = (Ok p, g') ->
  cached_tokenizer k g' = Some p.1 /\ cached_model k g' = Some p.2.
Proof.
  destruct k; run.
  - destruct (_sentiment_tokenizer g) as [t|] eqn:Ht,
             (_sentiment_model g) as [m|] eqn:Hm; cbn;
      try (destruct (hub_tokenizer _ _); cbn; [|discriminate];
           destruct (hub_model _ _); cbn; [|discriminate]);
      rewrite ?Ht, ?Hm; cbn; intros Heq; injection Heq as <- <-; cbn;
      by rewrite ?Ht, ?Hm.
  - destruct (_fluency_tokenizer g) as [t|] eqn:Ht,
             (_fluency_model g) as [m|] eqn:Hm; cbn;
      try (destruct (hub_tokenizer _ _); cbn; [|discriminate];
           destruct (hub_model _ _); cbn; [|discriminate]);
      rewrite ?Ht, ?Hm; cbn; intros Heq; injection Heq as <- <-; cbn;
      by rewrite ?Ht, ?Hm.
Qed.

(** A fetch of a key with a global unset loads the tokenizer and then the
    model, once each, and sets both globals. *)
Lemma fetch_uncached k g t m :
  cached_tokenizer k g = None \/ cached_model k g = None ->
  hub_tokenizer (length (loads g)) (path_of k) = Some t ->
  hub_model (S (length (loads g))) (path_of k) = Some m ->
  exists g',
    fetch k g = (Ok ({| obj_id := length (loads g); obj := t |},
                     {| obj_id := S (length (loads g)); obj := m |}), g')
    /\ loads g' = loads g ++ [LoadTokenizer (path_of k) true;
                              LoadModel (path_of k) true]
    /\ forall k', k' <> k ->
         cached_tokenizer k' g' = cached_tokenizer k' g
         /\ cached_model k' g' = cached_model k' g.
Proof.
  intros Hnone Ht Hm.
  assert (length (loads g ++ [LoadTokenizer (path_of k) true])
          = S (length (loads g))) as Hlen
    by (rewrite length_app; cbn; lia).
  destruct k; cbn in *; run.
  - assert (bool_decide (_sentiment_tokenizer g = None)
            || bool_decide (_sentiment_model g = None) = true) as ->.
    { destruct Hnone as [-> | ->]; cbn; [done | by rewrite orb_true_r]. }
    rewrite Ht. cbn. rewrite Hlen, Hm. cbn.
    eexists. split; [reflexivity|]. cbn. rewrite <- app_assoc.
    split; [done|]. by intros [] ?.
  - assert (bool_decide (_fluency_tokenizer g = None)
            || bool_decide (_fluency_model g = None) = true) as ->.
    { destruct Hnone as [-> | ->]; cbn; [done | by rewrite orb_true_r]. }
    rewrite Ht. cbn. rewrite Hlen, Hm. cbn.
    eexists. split; [reflexivity|]. cbn. rewrite <- app_assoc.
    split; [done|]. by intros [] ?.
Qed.

(** The scoring after the fetch reads the globals and writes none. *)
Lemma call_state k generated_outputs g :
  (call k generated_outputs g).2 = (fetch k g).2.
Proof.
  destruct k; cbn [ReferenceFreeTextQuality.call ReferenceFreeTextQuality.fetch].
  - unfold sentiment, bind at 1.
    destruct (sentiment_models _ _ g) as [[[t m]|e] g']; [|done].
    unfold bind, lift, ret. by repeat case_match.
  - unfold fluency, bind at 1.
    destruct (fluency_models _ _ g) as [[[t m]|e] g']; [|done].
    unfold bind, lift, ret. by repeat case_match.
Qed.
Lemma model_loads_snoc path (ls : list load) l :
  length (filter (fun l => is_model_load path l = true) (ls ++ [l]))
  = length (filter (fun l => is_model_load path l = true) ls)
    + (if is_model_load path l then 1 else 0).
Proof.
  rewrite filter_app, length_app. f_equal.
  destruct (is_model_load path l) eqn:Hl.
  - by rewrite filter_cons_True.
  - rewrite filter_cons_False; [done | by rewrite Hl].
Qed.

Lemma initial_globals_inv : globals_inv (@initial_globals F).
Proof. by intros []. Qed.

(** A fetch keeps the invariant, whether it returns or raises. *)
Lemma fetch_globals_inv k g : globals_inv g -> globals_inv (fetch k g).2.
Proof.
  intros Hinv k'.
  destruct (Hinv Sentiment) as [Hs1 Hs2], (Hinv Fluency) as [Hf1 Hf2].
  unfold model_loads in *.
  cbn [cached_tokenizer cached_model path_of] in *.
  destruct k; run.
  - destruct (_sentiment_tokenizer g) as [t|] eqn:Ht,
             (_sentiment_model g) as [m|] eqn:Hm; cbn;
      try (specialize (Hs1 eq_refl); discriminate);
      try (destruct (hub_tokenizer _ _); cbn;
           [destruct (hub_model _ _); cbn|]);
      rewrite ?Ht, ?Hm; cbn;
      destruct k'; cbn [cached_tokenizer cached_model path_of];
      cbn [set_sentiment_model set_sentiment_tokenizer
           _sentiment_tokenizer _sentiment_model
           _fluency_tokenizer _fluency_model log_load];
      rewrite ?Ht, ?Hm;
      (split; [done || (intros ?; discriminate) || idtac |]);
      rewrite ?model_loads_snoc; simpl; lia.
  - destruct (_fluency_tokenizer g) as [t|] eqn:Ht,
             (_fluency_model g) as [m|] eqn:Hm; cbn;
      try (specialize (Hf1 eq_refl); discriminate);
      try (destruct (hub_tokenizer _ _); cbn;
           [destruct (hub_model _ _); cbn|]);
      rewrite ?Ht, ?Hm; cbn;
      destruct k'; cbn [cached_tokenizer cached_model path_of];
      cbn [set_fluency_model set_fluency_tokenizer
           _sentiment_tokenizer _sentiment_model
           _fluency_tokenizer _fluency_model log_load];
      rewrite ?Ht, ?Hm;
      (split; [done || (intros ?; discriminate) || idtac |]);
      rewrite ?model_loads_snoc; simpl; lia.
Qed.

(** A fetch leaves the globals of the other key alone. *)
Lemma fetch_other k k' g :
  k' <> k ->
  cached_tokenizer k (fetch k' g).2 = cached_tokenizer k g
  /\ cached_model k (fetch k' g).2 = cached_model k g.
Proof.
  intros Hne. destruct k, k'; try done; run.
  - destruct (_fluency_tokenizer g) as [t|] eqn:Ht,
             (_fluency_model g) as [m|] eqn:Hm; cbn;
      try (destruct (hub_tokenizer _ _); cbn;
           [destruct (hub_model _ _); cbn|]);
      rewrite ?Ht, ?Hm; cbn; done.
  - destruct (_sentiment_tokenizer g) as [t|] eqn:Ht,
             (_sentiment_model g) as [m|] eqn:Hm; cbn;
      try (destruct (hub_tokenizer _ _); cbn;
           [destruct (hub_model _ _); cbn|]);
      rewrite ?Ht, ?Hm; cbn; done.
Qed.

Lemma run_calls_globals_inv calls :
  forall g, globals_inv g -> globals_inv (run_calls calls g).
Proof.
  induction calls as [|[k generated_outputs] calls IH]; intros g Hinv; [done|].
  cbn [ReferenceFreeTextQuality.run_calls]. apply IH.
  rewrite call_state. by apply fetch_globals_inv.
Qed.

(** C9.  The first fetch of a key loads its tokenizer and its model, once
    each, and stores the pair.  Every later fetch of the key returns the
    stored pair, the very objects of the first load, and loads nothing,
    also after fetches of the other key; a fetch of the other key loads
    that key's pair only.  Over any run of calls of [sentiment] and
    [fluency] the model of a key is loaded at most once. *)
Theorem models_are_loaded_once :
  (forall k g t m,
     cached_tokenizer k g = None \/ cached_model k g = None ->
     hub_tokenizer (length (loads g)) (path_of k) = Some t ->
     hub_model (S (length (loads g))) (path_of k) = Some m ->
     exists p g',
       fetch k g = (Ok p, g')
       /\ obj p.1 = t /\ obj p.2 = m
       /\ obj_id p.1 = length (loads g) /\ obj_id p.2 = S (length (loads g))
       /\ cached_tokenizer k g' = Some p.1 /\ cached_model k g' = Some p.2
       /\ loads g' = loads g ++ [LoadTokenizer (path_of k) true;
                                 LoadModel (path_of k) true]
       /\ forall k', k' <> k ->
            cached_tokenizer k' g' = cached_tokenizer k' g
            /\ cached_model k' g' = cached_model k' g)
  /\ (forall k g p g',
        fetch k g = (Ok p, g') ->
        fetch k g' = (Ok p, g')
        /\ forall generated_outputs, (call k generated_outputs g').2 = g')
  /\ (forall k k' g p g' r g'',
        k' <> k ->
        fetch k g = (Ok p, g') ->
        fetch k' g' = (r, g'') ->
        fetch k g'' = (Ok p, g''))
  /\ (forall calls k,
        model_loads (path_of k) (run_calls calls initial_globals) <= 1).
Proof.
  split_and!.
  - intros k g t m Hnone Ht Hm.
    destruct (fetch_uncached k g t m Hnone Ht Hm) as (g' & Hrun & Hloads & Hother).
    eexists _, g'. split; [exact Hrun|].
    destruct (fetch_inv_Ok _ _ _ _ Hrun) as [Hct Hcm].
    by split_and!.
  - intros k g p g' Hrun.
    destruct (fetch_inv_Ok _ _ _ _ Hrun) as [Hct Hcm].
    assert (fetch k g' = (Ok p, g')) as Hagain.
    { rewrite (fetch_cached k g' p.1 p.2) by done. by destruct p. }
    split; [done|]. intros generated_outputs.
    by rewrite call_state, Hagain.
  - intros k k' g p g' r g'' Hne Hrun Hrun'.
    destruct (fetch_inv_Ok _ _ _ _ Hrun) as [Hct Hcm].
    assert (cached_tokenizer k g'' = Some p.1 /\ cached_model k g'' = Some p.2)
      as [Hct' Hcm'].
    { destruct (fetch_other k k' g' Hne) as [Ht Hm].
      rewrite Hrun' in Ht, Hm. cbn [snd] in Ht, Hm. by rewrite Ht, Hm. }
    rewrite (fetch_cached k g'' p.1 p.2) by done. by destruct p.
  - intros calls k.
    destruct (run_calls_globals_inv calls initial_globals initial_globals_inv k)
      as [_ ->].
    case_match; lia.
Qed.
End Cache.

(** ** The weighted sum in binary32

    What the loop of [_logits_to_scores] computes in the arithmetic of the
    tensors themselves, on the probabilities and weights of the example: the
    binary32 number next to 0.65, which is a little less than 0.65. *)

Lemma float32_weighted_sum
    (softmax_row : list SpecFloat.spec_float -> list SpecFloat.spec_float) :
  exists score,
    @HfModels._logits_to_scores_loop _ (Float32.float32 softmax_row)
      {| ncols := 3; rows := [Float32.probabilities] |} 0
      Float32.weights [SpecFloat.S754_zero false]
    = Ok [score]
    /\ score = SpecFloat.S754_finite false 10905190 (-24)
    /\ (Float32.to_Q score < 0.65)%Q
    /\ (0.65 - Float32.to_Q score <= 1 # 2 ^ 25)%Q.
Proof.
  eexists. split; [vm_compute; reflexivity|].
  split; [reflexivity|]. split; [reflexivity | discriminate].
Qed.

(** The score of the example, computed as the code computes it, is not
    0.65, and it is not the number that Python writes [0.65] either: the
    comparison [score == 0.65] is false. *)
Lemma float32_score_is_not_0_65 :
  exists score,
    @HfModels._logits_to_scores_loop _ (Float32.float32 (fun r => r))
      {| ncols := 3; rows := [Float32.probabilities] |} 0
      Float32.weights [SpecFloat.S754_zero false]
    = Ok [score]
    /\ ~ (Float32.to_Q score == 0.65)%Q
    /\ ~ (Float32.to_Q score == Float32.python_0_65)%Q.
Proof.
  eexists. split; [vm_compute; reflexivity|]. split; discriminate.
Qed.

(** ** The properties on the toy instance *)

Section Witnesses.
Import HfModels.
Local Existing Instances Toy.torch Toy.torch_laws.

Local Ltac toy_wf :=
  unfold tensor_wf; vm_compute; repeat constructor.

Lemma validate_inputs_within_limit_witness :
  exists flags,
    (_validate_inputs (Toy.scorer Toy.sentiment_weights "nullify")
       Toy.texts Toy.world0).1 = Ok flags
    /\ flags !! 0 = Some true
    /\ flags !! 1 = Some false.
Proof.
  destruct (validate_inputs_within_limit
              (Toy.scorer Toy.sentiment_weights "nullify") Toy.texts Toy.world0)
    as (flags & w' & Hrun & _ & Hflag & _).
  exists flags. rewrite Hrun. split; [reflexivity|].
  destruct (Hflag 0 "short" eq_refl) as (v0 & -> & Hv0).
  destruct (Hflag 1 "a very long text" eq_refl) as (v1 & -> & Hv1).
  split; f_equal.
  - apply Hv0. vm_compute. discriminate.
  - destruct v1; [|reflexivity]. exfalso.
    destruct Hv1 as [Hle _]. specialize (Hle eq_refl).
    vm_compute in Hle. apply Hle. reflexivity.
Defined.

Lemma tokenize_raise_never_returns_witness :
  overflow_strategy (Toy.scorer Toy.sentiment_weights "raise") = "raise"
  /\ forallb (is_within_limit (Toy.scorer Toy.sentiment_weights "raise"))
       ["short"] = true
  /\ (_tokenize (Toy.scorer Toy.sentiment_weights "raise") ["short"]
        Toy.world0).1 = Raise AssertionError.
Proof.
  split; [reflexivity|]. split; [reflexivity|].
  destruct (tokenize_raise_never_returns
              (Toy.scorer Toy.sentiment_weights "raise") ["short"] Toy.world0
              eq_refl) as (w' & Hrun & _).
  rewrite Hrun. reflexivity.
Defined.

Lemma tokenize_unknown_strategy_asserts_witness :
  exists self w1,
    __init__ Toy.fetch_model "en" "sentiment" Toy.sentiment_weights "drop" None
      Toy.world0 = (Ok self, w1)
    /\ overflow_strategy self = "drop"
    /\ (_tokenize self Toy.texts w1).1 = Raise AssertionError.
Proof.
  destruct (tokenize_unknown_strategy_asserts Toy.fetch_model "en" "sentiment"
              Toy.sentiment_weights "drop" None Toy.toy_tokenizer Toy.toy_model
              Toy.texts Toy.world0)
    as (self & w1 & Hinit & Hs & Htok);
    [discriminate | discriminate | discriminate | reflexivity | discriminate |].
  exists self, w1. rewrite Htok. repeat split; assumption.
Defined.

Lemma tokenize_truncate_all_valid_witness :
  is_within_limit (Toy.scorer Toy.sentiment_weights "truncate")
    "a very long text" = false
  /\ exists scores w2,
       _score_tokens 
         (Toy.scorer Toy.sentiment_weights "truncate")
         (Toy.tokens, [true; true])
         (after [TokenizerCall Toy.texts 8] Toy.world0)
       = (Ok (map Some scores), w2)
       /\ length scores = 2.
Proof.
  split; [reflexivity|].
  destruct (tokenize_truncate_all_valid (Toy.scorer Toy.sentiment_weights "truncate") Toy.texts Toy.world0
              eq_refl) as (_ & _ & _ & _ & Hscore).
  destruct Hscore as (scores & Hrun & Hlen);
    [toy_wf | reflexivity | vm_compute; lia |].
  exists scores. eexists. split; [exact Hrun | exact Hlen].
Defined.

Lemma score_tokens_nullifies_invalid_witness :
  exists out,
    (_score_tokens (Toy.scorer Toy.sentiment_weights "nullify")
       (Toy.tokens, [true; false]) Toy.world1).1 = Ok out
    /\ out !! 0 = Some (Some (1 # 2)%Q)
    /\ out !! 1 = Some None
    /\ Toy.texts !! 1 = Some "a very long text"
    /\ exists tokens w1,
         _tokenize (Toy.scorer Toy.sentiment_weights "nullify") Toy.texts
           Toy.world0 = (Ok (tokens, [true; false]), w1).
Proof.
  destruct (score_tokens_nullifies_invalid
              (Toy.scorer Toy.sentiment_weights "nullify"))
    as (Hmask & Honly & Hkeeps).
  destruct (Hmask Toy.tokens [true; false] Toy.world1)
    as (scores & out & Hscores & Hrun & _ & Hout);
    [toy_wf | vm_compute; lia | reflexivity |].
  exists out. rewrite Hrun. split; [reflexivity|].
  destruct (Hout 0) as [_ Htrue]. destruct (Hout 1) as [Hfalse _].
  destruct (Htrue eq_refl) as (score & Hscore & ->).
  assert (scores = [(1 # 2)%Q; (1 # 2)%Q]) as ->.
  { vm_compute in Hscores. injection Hscores as <-. reflexivity. }
  injection Hscore as <-.
  split; [reflexivity|]. split; [exact (Hfalse eq_refl)|].
  destruct (Honly Toy.texts Toy.world0 (Toy.tokens, [true; false]) Toy.world1
              out _ eq_refl Hrun 1 (Hfalse eq_refl)) as [_ (text & Htext & _)].
  split; [reflexivity|].
  exact (Hkeeps Toy.texts Toy.world0 eq_refl).
Defined.

Lemma scores_aligned_with_inputs_witness :
  exists out w2,
    _score_tokens (Toy.scorer Toy.sentiment_weights "nullify")
      (Toy.tokens, [true; false]) Toy.world1
    = (Ok out, w2)
    /\ length out = length Toy.texts
    /\ out !! 1 = Some None.
Proof.
  destruct (scores_aligned_with_inputs (Toy.scorer Toy.sentiment_weights "nullify") Toy.texts Toy.world0)
    as (_ & Haligned & Hreturns).
  destruct Hreturns as (flags & w1 & out & w2 & Htok & Hscore);
    [toy_wf | reflexivity | vm_compute; lia | right; reflexivity |].
  assert (flags = [true; false] /\ w1 = Toy.world1) as [-> ->].
  { change (_tokenize (Toy.scorer Toy.sentiment_weights "nullify") Toy.texts
              Toy.world0)
      with (Ok (Toy.tokens, [true; false]), Toy.world1) in Htok.
    injection Htok as <- <-. split; reflexivity. }
  destruct (Haligned ltac:(toy_wf) eq_refl _ _ _ _ _ Htok Hscore)
    as (_ & Hlen & Hat).
  destruct (Hat 1 "a very long text" eq_refl)
    as (valid & r & Hvalid & _ & _ & Hout).
  injection Hvalid as <-.
  exists out, w2. split; [exact Hscore|]. split; [exact Hlen | exact Hout].
Defined.

Lemma logits_to_scores_dot_product_witness :
  _logits_to_scores (Toy.scorer Toy.sentiment_weights "nullify")
    Toy.undecided = Ok [(1 # 2)%Q].
Proof.
  destruct logits_to_scores_dot_product as [Hdot _].
  rewrite (Hdot Q Toy.torch Toy.torch_laws
             (Toy.scorer Toy.sentiment_weights "nullify") Toy.undecided);
    [reflexivity | toy_wf | reflexivity].
Defined.

(** A scorer with one weight for a model of three classes is built and
    scores: nothing is raised, the two other classes count for nothing. *)
Lemma short_class_weights_are_not_rejected :
  length [1%Q] <> ncols (forward Toy.toy_model Toy.tokens)
  /\ exists w1 w2 w3,
       __init__ Toy.fetch_model "en" "sentiment" [1%Q] "nullify" None Toy.world0
       = (Ok (Toy.scorer [1%Q] "nullify"), w1)
       /\ _tokenize (Toy.scorer [1%Q] "nullify") Toy.texts w1
          = (Ok (Toy.tokens, [true; false]), w2)
       /\ _score_tokens (Toy.scorer [1%Q] "nullify")
            (Toy.tokens, [true; false]) w2
          = (Ok [Some (1 # 3)%Q; None], w3).
Proof.
  split; [discriminate|].
  eexists _, _, _. split_and!; vm_compute; reflexivity.
Defined.

Lemma configuration_is_checked_at_first_use_witness :
  exists self w1,
    __init__ Toy.fetch_model "en" "sentiment" [1%Q] "drop" None Toy.world0
    = (Ok self, w1)
    /\ (_tokenize self Toy.texts w1).1 = Raise AssertionError
    /\ _logits_to_scores self Toy.undecided
       = Ok [(1 # 3)%Q]
    /\ _logits_to_scores self {| ncols := 0; rows := [[]] |}
       = Raise IndexError.
Proof.
  destruct (configuration_is_checked_at_first_use Toy.fetch_model "en" "sentiment" [1%Q] "drop" None
              Toy.toy_tokenizer Toy.toy_model Toy.world0 eq_refl)
    as (self & w1 & Hinit & _ & _ & Hassert & Hlong & Hshort).
  exists self, w1. split; [exact Hinit|].
  destruct (Hassert ltac:(discriminate) ltac:(discriminate) ltac:(discriminate)
              Toy.texts w1) as [w2 ->].
  split; [reflexivity|].
  rewrite (Hshort Toy.undecided) by (toy_wf || (vm_compute; lia)).
  split; [reflexivity|].
  apply Hlong. vm_compute. lia.
Defined.

Lemma slice_tokens_consistent_witness :
  exists sliced,
    _slice_tokens (Toy.scorer Toy.sentiment_weights "nullify")
      (Toy.tokens, [true; false]) 1 2 = (sliced, [false])
    /\ batch_len 1 sliced
    /\ sliced !! "input_ids" = Some [[97; 32; 118; 101; 114; 121; 32; 108]%Z].
Proof.
  destruct (slice_tokens_consistent (Toy.scorer Toy.sentiment_weights "nullify")
              Toy.tokens [true; false] 1 2)
    as (sliced & flags & Hrun & -> & _ & Hkeys & Hlen & _).
  { apply map_Forall_insert_2; [reflexivity|].
    apply map_Forall_insert_2; [reflexivity|]. apply map_Forall_empty. }
  exists sliced. split; [exact Hrun|]. split; [exact Hlen|].
  rewrite (Hkeys "input_ids" _ eq_refl). reflexivity.
Defined.

Lemma models_are_loaded_once_witness :
  exists p g1 q g2,
    ReferenceFreeTextQuality.sentiment_models Toy.hub_tokenizer Toy.hub_model
      ReferenceFreeTextQuality.initial_globals = (Ok p, g1)
    /\ ReferenceFreeTextQuality.sentiment_models Toy.hub_tokenizer Toy.hub_model
         g1 = (Ok p, g1)
    /\ ReferenceFreeTextQuality.fluency_models Toy.hub_tokenizer Toy.hub_model
         g1 = (Ok q, g2)
    /\ length (ReferenceFreeTextQuality.loads g1) = 2
    /\ length (ReferenceFreeTextQuality.loads g2) = 4
    /\ ReferenceFreeTextQuality.sentiment_models Toy.hub_tokenizer Toy.hub_model
         g2 = (Ok p, g2).
Proof.
  destruct (models_are_loaded_once Toy.hub_tokenizer
              Toy.hub_model) as (Hfirst & Hagain & Hother & _).
  destruct (Hfirst ReferenceFreeTextQuality.Sentiment
              ReferenceFreeTextQuality.initial_globals
              Toy.toy_tokenizer Toy.toy_model (or_introl eq_refl) eq_refl eq_refl)
    as (p & g1 & Hp & _ & _ & _ & _ & _ & _ & Hloads1 & Hkept).
  destruct (Hkept ReferenceFreeTextQuality.Fluency ltac:(discriminate))
    as [Hnone _].
  destruct (Hfirst ReferenceFreeTextQuality.Fluency g1
              Toy.toy_tokenizer Toy.toy_model (or_introl Hnone) eq_refl eq_refl)
    as (q & g2 & Hq & _ & _ & _ & _ & _ & _ & Hloads2 & _).
  exists p, g1, q, g2. split; [exact Hp|].
  split; [exact (proj1 (Hagain _ _ _ _ Hp))|].
  split; [exact Hq|].
  split; [rewrite Hloads1; reflexivity|].
  split; [rewrite Hloads2, Hloads1; reflexivity|].
  exact (Hother ReferenceFreeTextQuality.Sentiment
           ReferenceFreeTextQuality.Fluency _ _ _ _ _
           ltac:(discriminate) Hp Hq).
Defined.
End Witnesses.

(** ** Converting hiragana *)

Section ConvKanaFacts.
Import ConvKana.
Context {char : Type}.
Variable hira2kata hira2hkata kana2alphabet : list char -> list char.
Variable random_values : nat -> Q.
Implicit Types (instance : list char) (instances : list (list char)).

Local Abbreviation converter := (converter hira2kata hira2hkata kana2alphabet).
Local Abbreviation convert := (convert hira2kata hira2hkata kana2alphabet).
Local Abbreviation chars_loop :=
  (chars_loop hira2kata hira2hkata kana2alphabet random_values).
Local Abbreviation perturbations_loop :=
  (perturbations_loop hira2kata hira2hkata kana2alphabet random_values).
Local Abbreviation instances_loop :=
  (instances_loop hira2kata hira2hkata kana2alphabet random_values).
Local Abbreviation conv_hiragana :=
  (conv_hiragana hira2kata hira2hkata kana2alphabet random_values).

Lemma convert_converter convert_to c :
  convert convert_to c
  = match converter convert_to with
    | Some f => Ok (f [c])
    | None => Raise invalid_convert_to
    end.
Proof.
  unfold ConvKana.convert, ConvKana.converter. by repeat case_match.
Qed.

(** One step of the loop over the characters. *)
Lemma chars_loop_cons convert_to aug_char_p c instance acc n :
  chars_loop convert_to aug_char_p (c :: instance) acc n
  = if negb (Qle_bool (random_values n) aug_char_p)
    then chars_loop convert_to aug_char_p instance (acc ++ [c]) (S n)
    else match converter convert_to with
         | Some f => chars_loop convert_to aug_char_p instance (acc ++ f [c]) (S n)
         | None => (Raise invalid_convert_to, S n)
         end.
Proof.
  cbn [ConvKana.chars_loop]. unfold bind at 1, random.
  destruct (negb (Qle_bool (random_values n) aug_char_p)); [done|].
  unfold bind, lift. rewrite convert_converter. by destruct (converter convert_to).
Qed.

(** The loop draws one number per character. *)
Lemma chars_loop_draws convert_to aug_char_p instance :
  forall acc n out n',
    chars_loop convert_to aug_char_p instance acc n = (Ok out, n') ->
    n' = n + length instance.
Proof.
  induction instance as [|c instance IH]; intros acc n out n'.
  - cbn. intros [= _ <-]. lia.
  - rewrite chars_loop_cons. cbn [length].
    destruct (negb (Qle_bool (random_values n) aug_char_p)).
    + intros Hrun. apply IH in Hrun. lia.
    + destruct (converter convert_to); [|discriminate].
      intros Hrun. apply IH in Hrun. lia.
Qed.

(** No character is drawn. *)
Lemma chars_loop_kept convert_to aug_char_p instance :
  (forall k, Qle_bool (random_values k) aug_char_p = false) ->
  forall acc n,
    chars_loop convert_to aug_char_p instance acc n
    = (Ok (acc ++ instance), n + length instance).
Proof.
  intros Hp. induction instance as [|c instance IH]; intros acc n.
  - cbn. by rewrite app_nil_r, Nat.add_0_r.
  - rewrite chars_loop_cons, Hp. cbn [negb length].
    rewrite IH, <- app_assoc. f_equal; try done; lia.
Qed.

(** Every character is drawn. *)
Lemma chars_loop_converted convert_to aug_char_p f instance :
  converter convert_to = Some f ->
  (forall k, Qle_bool (random_values k) aug_char_p = true) ->
  forall acc n,
    chars_loop convert_to aug_char_p instance acc n
    = (Ok (acc ++ concat (map (fun c => f [c]) instance)), n + length instance).
Proof.
  intros Hf Hp. induction instance as [|c instance IH]; intros acc n.
  - cbn. by rewrite app_nil_r, Nat.add_0_r.
  - rewrite chars_loop_cons, Hp, Hf. cbn [negb length map concat].
    rewrite IH, <- app_assoc. f_equal; try done; lia.
Qed.

(** The conversion leaves every character as it is. *)
Lemma chars_loop_fixed convert_to aug_char_p f instance :
  converter convert_to = Some f ->
  Forall (fun c => f [c] = [c]) instance ->
  forall acc n,
    chars_loop convert_to aug_char_p instance acc n
    = (Ok (acc ++ instance), n + length instance).
Proof.
  intros Hf Hfix. induction Hfix as [|c instance Hc _ IH]; intros acc n.
  - cbn. by rewrite app_nil_r, Nat.add_0_r.
  - rewrite chars_loop_cons, Hf, Hc. cbn [length].
    assert (chars_loop convert_to aug_char_p instance (acc ++ [c]) (S n)
            = (Ok (acc ++ c :: instance), n + S (length instance))) as ->.
    { rewrite IH, <- app_assoc. f_equal; try done; lia. }
    by destruct (negb (Qle_bool (random_values n) aug_char_p)).
Qed.

(** The loops over the perturbations and the instances, when each string
    has one outcome [f], whatever has been drawn before. *)
Lemma perturbations_loop_const convert_to aug_char_p instance out :
  (forall n, chars_loop convert_to aug_char_p instance [] n
             = (Ok out, n + length instance)) ->
  forall left acc n,
    perturbations_loop convert_to aug_char_p instance left acc n
    = (Ok (acc ++ replicate left out), n + left * length instance).
Proof.
  intros Hone. induction left as [|left IH]; intros acc n.
  - cbn. by rewrite app_nil_r, Nat.add_0_r.
  - cbn [ConvKana.perturbations_loop]. erewrite bind_Ok; [|apply Hone].
    rewrite IH. cbn [replicate]. rewrite <- app_assoc. f_equal; try done; lia.
Qed.

Lemma instances_loop_const convert_to aug_char_p num_perturbations
    (f : list char -> list char) instances :
  (forall instance, instance ∈ instances ->
     forall n, chars_loop convert_to aug_char_p instance [] n
               = (Ok (f instance), n + length instance)) ->
  forall acc n,
    instances_loop convert_to aug_char_p num_perturbations instances acc n
    = (Ok (acc ++ flat_map (fun instance =>
                              replicate (Z.to_nat num_perturbations) (f instance))
                     instances),
       n + Z.to_nat num_perturbations * sum_list (length <$> instances)).
Proof.
  induction instances as [|instance instances IH]; intros Hone acc n.
  - cbn. by rewrite app_nil_r, Nat.mul_0_r, Nat.add_0_r.
  - cbn [ConvKana.instances_loop].
    erewrite bind_Ok;
      [|apply perturbations_loop_const, Hone; by apply list_elem_of_here].
    rewrite IH by (intros ? ?; apply Hone; by apply list_elem_of_further).
    cbn [flat_map fmap list_fmap sum_list sum_list_with].
    rewrite <- app_assoc. f_equal; try done. unfold id. lia.
Qed.

Lemma perturbations_loop_count convert_to aug_char_p instance :
  forall left acc n out n',
    perturbations_loop convert_to aug_char_p instance left acc n = (Ok out, n') ->
    length out = length acc + left /\ n' = n + left * length instance.
Proof.
  induction left as [|left IH]; intros acc n out n'.
  - cbn. intros [= <- <-]. lia.
  - cbn [ConvKana.perturbations_loop]. intros Hrun.
    apply bind_inv_Ok in Hrun as (one & n1 & Hone & Hrest).
    apply chars_loop_draws in Hone. apply IH in Hrest as [-> ->].
    rewrite length_app. cbn. lia.
Qed.

Lemma instances_loop_count convert_to aug_char_p num_perturbations instances :
  forall acc n out n',
    instances_loop convert_to aug_char_p num_perturbations instances acc n
    = (Ok out, n') ->
    length out = length acc + length instances * Z.to_nat num_perturbations
    /\ n' = n + Z.to_nat num_perturbations * sum_list (length <$> instances).
Proof.
  induction instances as [|instance instances IH]; intros acc n out n'.
  - cbn. intros [= <- <-]. lia.
  - cbn [ConvKana.instances_loop]. intros Hrun.
    apply bind_inv_Ok in Hrun as (acc1 & n1 & Hone & Hrest).
    apply perturbations_loop_count in Hone as [Hlen1 ->].
    apply IH in Hrest as [-> ->].
    cbn [length fmap list_fmap sum_list sum_list_with]. unfold id. lia.
Qed.

(** X1.  When [conv_hiragana] returns, it returns [num_perturbations]
    strings for every instance, none if [num_perturbations] is not
    positive, a single string counting as one instance; and it has called
    [random.random()] once for every character of every perturbation. *)
Theorem conv_hiragana_count input convert_to aug_char_p num_perturbations
    n out n' :
  conv_hiragana input convert_to aug_char_p num_perturbations n = (Ok out, n') ->
  length out = length (as_list input) * Z.to_nat num_perturbations
  /\ n' = n + Z.to_nat num_perturbations
              * sum_list (length <$> as_list input).
Proof.
  unfold ConvKana.conv_hiragana. intros Hrun.
  apply instances_loop_count in Hrun. cbn [length] in Hrun.
  by destruct input.
Qed.

(** X2.  With [aug_char_p] at least 1 (the default is 1.0) and the random
    numbers below 1, every character goes through the function of [jaconv]
    that [convert_to] names: each instance gives [num_perturbations] copies
    of the concatenation of its converted characters, whatever is drawn. *)
Theorem conv_hiragana_converts_all input convert_to aug_char_p
    num_perturbations f n :
  converter convert_to = Some f ->
  (1 <= aug_char_p)%Q ->
  (forall k, (random_values k < 1)%Q) ->
  (conv_hiragana input convert_to aug_char_p num_perturbations n).1
  = Ok (flat_map (fun instance =>
                    replicate (Z.to_nat num_perturbations)
                      (concat (map (fun c => f [c]) instance)))
          (as_list input)).
Proof.
  intros Hf Hp Hrand. unfold ConvKana.conv_hiragana.
  rewrite (instances_loop_const _ _ _
             (fun instance => concat (map (fun c => f [c]) instance))); [done|].
  intros instance _ k. apply (chars_loop_converted _ _ f); [done|].
  intros j. apply Qle_bool_iff. apply Qlt_le_weak.
  eapply Qlt_le_trans; [apply Hrand | exact Hp].
Qed.

(** X3.  With a negative [aug_char_p] no character is converted and
    [convert_to] is never looked at: each instance comes back unchanged,
    [num_perturbations] times, also for a [convert_to] that is none of
    ['kata'], ['hkata'] and ['alpha']. *)
Theorem conv_hiragana_negative_p input convert_to aug_char_p
    num_perturbations n :
  (aug_char_p < 0)%Q ->
  (forall k, (0 <= random_values k)%Q) ->
  (conv_hiragana input convert_to aug_char_p num_perturbations n).1
  = Ok (flat_map (fun instance => replicate (Z.to_nat num_perturbations) instance)
          (as_list input)).
Proof.
  intros Hp Hrand. unfold ConvKana.conv_hiragana.
  rewrite (instances_loop_const _ _ _ (fun instance => instance)); [done|].
  intros instance _ k. rewrite chars_loop_kept; [done|].
  intros j. destruct (Qle_bool (random_values j) aug_char_p) eqn:Hle; [|done].
  apply Qle_bool_iff in Hle. exfalso.
  apply (Qlt_irrefl 0). eapply Qle_lt_trans; [apply (Hrand j)|].
  eapply Qle_lt_trans; [exact Hle | exact Hp].
Qed.

(** X5.  Characters that the selected function of [jaconv] leaves as they
    are stay as they are: a text made of such characters only comes back
    unchanged, whatever [aug_char_p] is and whatever is drawn. *)
Theorem conv_hiragana_fixed_characters input convert_to aug_char_p
    num_perturbations f n :
  converter convert_to = Some f ->
  Forall (Forall (fun c => f [c] = [c])) (as_list input) ->
  (conv_hiragana input convert_to aug_char_p num_perturbations n).1
  = Ok (flat_map (fun instance => replicate (Z.to_nat num_perturbations) instance)
          (as_list input)).
Proof.
  intros Hf Hfix. unfold ConvKana.conv_hiragana.
  rewrite (instances_loop_const _ _ _ (fun instance => instance)); [done|].
  intros instance Hin k. rewrite (chars_loop_fixed _ _ f); [done..|].
  rewrite Forall_forall in Hfix. destruct input; by apply Hfix.
Qed.
(** A run of the loop over the instances under a [convert_to] that names no
    function, with every character drawn. *)
Lemma instances_loop_invalid convert_to aug_char_p num_perturbations :
  converter convert_to = None ->
  (forall k, Qle_bool (random_values k) aug_char_p = true) ->
  forall instances acc n,
    (instances_loop convert_to aug_char_p num_perturbations instances acc n).1
    = if (0 <? num_perturbations)%Z
         && existsb (fun instance => bool_decide (instance <> [])) instances
      then Raise invalid_convert_to
      else Ok (acc ++ flat_map (fun instance =>
                                  replicate (Z.to_nat num_perturbations) instance)
                        instances).
Proof.
  intros Hf Hp.
  induction instances as [|instance instances IH]; intros acc n.
  - cbn. by rewrite andb_false_r, app_nil_r.
  - cbn [ConvKana.instances_loop existsb flat_map].
    destruct instance as [|c instance].
    + erewrite bind_Ok;
        [|apply (perturbations_loop_const convert_to aug_char_p [] []);
          intros k; cbn; by rewrite Nat.add_0_r].
      rewrite IH, <- app_assoc.
      rewrite (bool_decide_eq_false_2 (@nil char <> [])) by (intros Hne; by apply Hne).
      done.
    + rewrite (bool_decide_eq_true_2 (c :: instance <> [])) by done.
      cbn [orb]. rewrite andb_true_r.
      destruct (Z.to_nat num_perturbations) as [|left] eqn:Hleft.
      * assert ((0 <? num_perturbations)%Z = false) as Hnum
          by (apply Z.ltb_ge; lia).
        cbn [ConvKana.perturbations_loop]. erewrite bind_Ok; [|reflexivity].
        rewrite IH, Hnum. done.
      * assert ((0 <? num_perturbations)%Z = true) as ->
          by (apply Z.ltb_lt; lia).
        cbn [ConvKana.perturbations_loop].
        erewrite bind_Raise; [done|].
        erewrite bind_Raise; [done|].
        rewrite chars_loop_cons, Hp, Hf. done.
Qed.

(** X4.  A [convert_to] that is none of ['kata'], ['hkata'] and ['alpha']
    is found out only when a character is to be converted.  With every
    character drawn ([aug_char_p] at least 1), [conv_hiragana] raises the
    [ValueError] if [num_perturbations] is positive and some instance is not
    empty; otherwise it returns, without an error, [num_perturbations]
    empty strings per instance. *)
Theorem conv_hiragana_validates_lazily input convert_to aug_char_p
    num_perturbations n :
  converter convert_to = None ->
  (1 <= aug_char_p)%Q ->
  (forall k, (random_values k < 1)%Q) ->
  (conv_hiragana input convert_to aug_char_p num_perturbations n).1
  = if (0 <? num_perturbations)%Z
       && existsb (fun instance => bool_decide (instance <> [])) (as_list input)
    then Raise invalid_convert_to
    else Ok (flat_map (fun instance =>
                         replicate (Z.to_nat num_perturbations) instance)
               (as_list input)).
Proof.
  intros Hf Hp Hrand. unfold ConvKana.conv_hiragana.
  rewrite (instances_loop_invalid convert_to aug_char_p num_perturbations Hf).
  - by destruct input.
  - intros k. apply Qle_bool_iff. apply Qlt_le_weak.
    eapply Qlt_le_trans; [apply Hrand | exact Hp].
Qed.
End ConvKanaFacts.

(** ** The readability scores *)

Section ReadabilityFacts.
Import PyMore ReferenceFreeTextQuality Readability.
Context {F : Type} `{PyFloat F}.
Variable compute_stats : string -> TextStats.

Lemma truediv_Returned a b : b <> 0%Z -> truediv a b = Returned (int_div a b).
Proof. intros Hb. unfold truediv. by apply Z.eqb_neq in Hb as ->. Qed.

Lemma countable_true stat :
  countable stat = true <-> num_sentences stat <> 0%Z /\ num_words stat <> 0%Z.
Proof.
  unfold countable. rewrite andb_true_iff, !negb_true_iff, !Z.eqb_neq. done.
Qed.

(** Each score of a text is there if and only if the text has a sentence and
    a word. *)
Lemma reading_ease_countable stat :
  reading_ease stat
  = if countable stat
    then Returned
           (float_sub
              (float_sub (literal 206.835)
                 (float_mul (literal 1.015)
                    (int_div (num_words stat) (num_sentences stat))))
              (float_mul (literal 84.6)
                 (int_div (num_syllables stat) (num_words stat))))
    else Raised ZeroDivisionError.
Proof.
  unfold reading_ease, countable, truediv.
  destruct (num_sentences stat =? 0)%Z; [done|].
  by destruct (num_words stat =? 0)%Z.
Qed.

Lemma kincaid_grade_countable stat :
  kincaid_grade stat
  = if countable stat
    then Returned
           (float_sub
              (float_add
                 (float_mul (literal 0.39)
                    (int_div (num_words stat) (num_sentences stat)))
                 (float_mul (literal 11.8)
                    (int_div (num_syllables stat) (num_words stat))))
              (literal 15.59))
    else Raised ZeroDivisionError.
Proof.
  unfold kincaid_grade, countable, truediv.
  destruct (num_sentences stat =? 0)%Z; [done|].
  by destruct (num_words stat =? 0)%Z.
Qed.

(** A list comprehension whose element raises [ZeroDivisionError] on the
    texts that are not countable and returns [value] on the others. *)
Lemma comprehension_countable (score : TextStats -> outcome F)
    (value : TextStats -> F) (output_stats : list TextStats) :
  (forall stat, score stat
                = if countable stat then Returned (value stat)
                  else Raised ZeroDivisionError) ->
  comprehension score output_stats
  = if forallb countable output_stats
    then Returned (map value output_stats)
    else Raised ZeroDivisionError.
Proof.
  intros Hscore. induction output_stats as [|stat output_stats IH]; [done|].
  cbn [comprehension forallb map]. rewrite Hscore, IH.
  destruct (countable stat); [|done].
  by destruct (forallb countable output_stats).
Qed.

(** X6.  [flesch_reading_ease] and [flesch_kincaid_grade] return for the
    same lists of texts: those whose every text has at least one sentence
    and one word according to [compute_stats].  On any other list both raise
    [ZeroDivisionError] and no score is returned for any text.  When they
    return, there is one score per text, in the order of the texts, and the
    texts are handed back as they came. *)
Theorem flesch_scores_need_sentences_and_words (generated_outputs : list string) :
  let countable_text text := countable (compute_stats text) in
  (forallb countable_text generated_outputs = false ->
   flesch_reading_ease compute_stats generated_outputs = Raised ZeroDivisionError
   /\ flesch_kincaid_grade compute_stats generated_outputs
      = Raised ZeroDivisionError)
  /\ (forallb countable_text generated_outputs = true ->
      exists ease grade,
        flesch_reading_ease compute_stats generated_outputs = Returned ease
        /\ flesch_kincaid_grade compute_stats generated_outputs = Returned grade
        /\ ReferenceFreeTextQuality.generated_outputs F ease = generated_outputs
        /\ ReferenceFreeTextQuality.generated_outputs F grade = generated_outputs
        /\ length (metric_values F ease) = length generated_outputs
        /\ length (metric_values F grade) = length generated_outputs
        /\ forall i text, generated_outputs !! i = Some text ->
             (Returned <$> metric_values F ease !! i)
             = Some (reading_ease (compute_stats text))
             /\ (Returned <$> metric_values F grade !! i)
                = Some (kincaid_grade (compute_stats text))).
Proof.
  intros countable_text.
  assert (forallb countable (map compute_stats generated_outputs)
          = forallb countable_text generated_outputs) as Hall.
  { induction generated_outputs as [|text texts IH]; [done|].
    cbn. by rewrite IH. }
  unfold flesch_reading_ease, flesch_kincaid_grade. cbn zeta.
  rewrite (comprehension_countable reading_ease _ _ reading_ease_countable),
          (comprehension_countable kincaid_grade _ _ kincaid_grade_countable),
          Hall.
  split; intros Hok; rewrite Hok; [done|]. cbn [obind].
  eexists _, _. split_and!; [done..| | |]; cbn [metric_values].
  - by rewrite length_map, length_map.
  - by rewrite length_map, length_map.
  - intros i text Hi.
    assert (countable (compute_stats text) = true) as Hc.
    { rewrite forallb_forall in Hok. apply Hok.
      apply list_elem_of_In. by eapply list_elem_of_lookup_2. }
    rewrite !list_lookup_fmap, Hi. cbn.
    by rewrite reading_ease_countable, kincaid_grade_countable, Hc.
Qed.
End ReadabilityFacts.

(** ** The toxicity model *)

Section ToxicityFacts.
Import PyMore ReferenceFreeTextQuality Toxicity.
Context {F : Type}.
Variable new_Detoxify : nat -> string -> option (Detoxify F).
Implicit Types g : Toxicity.Globals F.

Local Abbreviation toxicity := (toxicity new_Detoxify).
Local Abbreviation run_calls := (Toxicity.run_calls new_Detoxify).

Lemma constructed_snoc (l : list bool) b :
  length (filter (fun b => b = true) (l ++ [b]))
  = length (filter (fun b => b = true) l) + (if b then 1 else 0).
Proof.
  rewrite filter_app, length_app. f_equal. by destruct b.
Qed.

Lemma toxicity_keeps_inv generated_outputs g :
  toxicity_inv g -> toxicity_inv (toxicity generated_outputs g).2.
Proof.
  unfold toxicity_inv, constructed, Toxicity.toxicity.
  destruct (_toxicity_model g) as [model|] eqn:Hm.
  - rewrite Hm. intros Hinv.
    destruct (predict (obj model) generated_outputs !! "toxicity"); cbn;
      by rewrite Hm.
  - intros Hinv. destruct (new_Detoxify _ _) as [d|]; cbn.
    + destruct (predict d generated_outputs !! "toxicity"); cbn;
        rewrite constructed_snoc; lia.
    + rewrite constructed_snoc. lia.
Qed.

Lemma run_calls_keeps_inv calls :
  forall g, toxicity_inv g -> toxicity_inv (run_calls calls g).
Proof.
  induction calls as [|generated_outputs calls IH]; intros g Hinv; [done|].
  cbn [Toxicity.run_calls]. by apply IH, toxicity_keeps_inv.
Qed.

(** X7.  [toxicity] builds the [Detoxify] model when the global is unset and
    never again: over any run of calls at most one construction returns.
    With the model set, a call changes no global and returns the
    ['toxicity'] entry of what [predict] gives for the texts, or raises
    [KeyError] if there is no such entry.  A construction that raises leaves
    the global unset, so that the next call tries again. *)
Theorem toxicity_model_is_built_once :
  (forall calls,
     constructed (run_calls calls Toxicity.initial_globals) <= 1)
  /\ (forall generated_outputs g model,
        _toxicity_model g = Some model ->
        toxicity generated_outputs g
        = (match predict (obj model) generated_outputs !! "toxicity" with
           | Some scores =>
               Returned {| metric_name := "toxicity";
                           prompts := None;
                           generated_outputs := generated_outputs;
                           metric_values := scores |}
           | None => Raised (KeyError "toxicity")
           end, g))
  /\ (forall generated_outputs g d,
        _toxicity_model g = None ->
        new_Detoxify (length (constructions g)) "original" = Some d ->
        exists model g',
          obj model = d
          /\ _toxicity_model g' = Some model
          /\ toxicity generated_outputs g
             = ((toxicity generated_outputs g').1, g'))
  /\ (forall generated_outputs g,
        _toxicity_model g = None ->
        new_Detoxify (length (constructions g)) "original" = None ->
        exists g',
          toxicity generated_outputs g = (Raised (Builtin OSError), g')
          /\ _toxicity_model g' = None).
Proof.
  split_and!.
  - intros calls.
    pose proof (run_calls_keeps_inv calls Toxicity.initial_globals eq_refl) as Hinv.
    unfold toxicity_inv in Hinv. rewrite Hinv. case_match; lia.
  - intros generated_outputs g model Hm. unfold Toxicity.toxicity.
    rewrite Hm. cbn. rewrite Hm. by case_match.
  - intros generated_outputs g d Hm Hd.
    eexists {| obj_id := length (constructions g); obj := d |},
            {| _toxicity_model := Some _; constructions := constructions g ++ [true] |}.
    split; [done|]. split; [done|].
    unfold Toxicity.toxicity. rewrite Hm, Hd. cbn. by case_match.
  - intros generated_outputs g Hm Hd. eexists.
    unfold Toxicity.toxicity. rewrite Hm, Hd. cbn. done.
Qed.
End ToxicityFacts.

(** ** The scores of [sentiment] and [fluency] *)

Section MetricFacts.
Import HfModels ReferenceFreeTextQuality.
Context {F : Type} `{Torch F}.
Variable hub_tokenizer : nat -> string -> option Tokenizer.
Variable hub_model : nat -> string -> option (Model F).
Implicit Types (g : ReferenceFreeTextQuality.Globals F) (k : metric).

Local Abbreviation sentiment := (sentiment hub_tokenizer hub_model).
Local Abbreviation fluency := (fluency hub_tokenizer hub_model).
Local Abbreviation fetch := (fetch hub_tokenizer hub_model).
Local Abbreviation call := (call hub_tokenizer hub_model).

(** [sentiment] with its models loaded: the globals stay, the scores are
    made of the second and the third column of the probabilities. *)
Lemma sentiment_cached generated_outputs g t m :
  _sentiment_tokenizer g = Some t ->
  _sentiment_model g = Some m ->
  sentiment generated_outputs g
  = (let probs := softmax (forward (obj m)
                             (tok_call (obj t) generated_outputs false None)) in
     rbind (column probs 1) (fun col1 =>
     rbind (column probs 2) (fun col2 =>
     Ok {| metric_name := "sentiment";
           prompts := None;
           generated_outputs := generated_outputs;
           metric_values :=
             zip_with Fadd (map (fun p => Fdiv_int p 2) col1) col2 |})), g).
Proof.
  intros Ht Hm. unfold ReferenceFreeTextQuality.sentiment.
  erewrite bind_Ok;
    [|exact (fetch_cached hub_tokenizer hub_model Sentiment g t m Ht Hm)].
  cbn zeta. unfold bind, lift, ret. by repeat case_match.
Qed.

Lemma fluency_cached generated_outputs g t m :
  _fluency_tokenizer g = Some t ->
  _fluency_model g = Some m ->
  fluency generated_outputs g
  = (let probs := softmax (forward (obj m)
                             (tok_call (obj t) generated_outputs false None)) in
     rbind (column probs 1) (fun scores =>
     Ok {| metric_name := "fluency";
           prompts := None;
           generated_outputs := generated_outputs;
           metric_values := scores |}), g).
Proof.
  intros Ht Hm. unfold ReferenceFreeTextQuality.fluency.
  erewrite bind_Ok;
    [|exact (fetch_cached hub_tokenizer hub_model Fluency g t m Ht Hm)].
  cbn zeta. unfold bind, lift, ret. by repeat case_match.
Qed.

Lemma zip_with_map_map {X Y Z' W} (f : Y -> Z' -> W) (g1 : X -> Y) (g2 : X -> Z')
    (l : list X) :
  zip_with f (map g1 l) (map g2 l) = map (fun x => f (g1 x) (g2 x)) l.
Proof. induction l as [|x l IH]; cbn; [done | by rewrite IH]. Qed.

(** The scores of [sentiment] on logits of at least three classes. *)
Lemma sentiment_values generated_outputs g t m :
  _sentiment_tokenizer g = Some t ->
  _sentiment_model g = Some m ->
  let logits := forward (obj m) (tok_call (obj t) generated_outputs false None) in
  3 <= ncols logits ->
  sentiment generated_outputs g
  = (Ok {| metric_name := "sentiment";
           prompts := None;
           generated_outputs := generated_outputs;
           metric_values :=
             map (fun r => Fadd (Fdiv_int (default Fzero (softmax_row r !! 1)) 2)
                             (default Fzero (softmax_row r !! 2)))
               (rows logits) |}, g).
Proof.
  intros Ht Hm logits Hn. rewrite (sentiment_cached _ g t m Ht Hm). cbn zeta.
  fold logits. rewrite !column_Ok by (cbn [softmax ncols]; lia).
  cbn [rbind softmax rows]. rewrite !map_map, zip_with_map_map. done.
Qed.

(** X8.  With its models loaded, [sentiment] needs a model of at least
    three classes: on fewer it raises [IndexError].  On three or more it
    returns one score per text, half the probability of the second class
    plus the probability of the third, under the name ['sentiment'] and
    with the texts as they came; the globals stay as they are. *)
Theorem sentiment_takes_three_classes `{!TorchLaws F} generated_outputs g t m :
  _sentiment_tokenizer g = Some t ->
  _sentiment_model g = Some m ->
  let logits := forward (obj m) (tok_call (obj t) generated_outputs false None) in
  (ncols logits < 3 -> sentiment generated_outputs g = (Raise IndexError, g))
  /\ (tensor_wf logits -> 3 <= ncols logits ->
      exists value,
        sentiment generated_outputs g = (Ok value, g)
        /\ metric_name F value = "sentiment"
        /\ ReferenceFreeTextQuality.generated_outputs F value = generated_outputs
        /\ length (metric_values F value) = length (rows logits)
        /\ forall i r, rows logits !! i = Some r ->
             exists p1 p2,
               softmax_row r !! 1 = Some p1
               /\ softmax_row r !! 2 = Some p2
               /\ metric_values F value !! i = Some (Fadd (Fdiv_int p1 2) p2)).
Proof.
  intros Ht Hm logits. split.
  - intros Hn. rewrite (sentiment_cached _ g t m Ht Hm). cbn zeta. fold logits.
    f_equal. destruct (decide (1 < ncols logits)) as [H1|H1].
    + rewrite (column_Ok _ 1) by done. cbn [rbind].
      rewrite column_Raise by (cbn [softmax ncols]; lia). done.
    + rewrite column_Raise by (cbn [softmax ncols]; lia). done.
  - intros Hwf Hn. eexists. split; [by apply sentiment_values|].
    cbn [metric_name ReferenceFreeTextQuality.generated_outputs metric_values].
    split_and!; [done | done | by rewrite length_map |].
    intros i r Hr.
    assert (length (softmax_row r) = ncols logits) as Hlen.
    { rewrite softmax_row_length.
      eapply Forall_lookup_1 in Hwf; [exact Hwf | exact Hr]. }
    destruct (lookup_lt_is_Some_2 (softmax_row r) 1) as [p1 Hp1]; [lia|].
    destruct (lookup_lt_is_Some_2 (softmax_row r) 2) as [p2 Hp2]; [lia|].
    exists p1, p2. split_and!; [done..|].
    unfold logits in Hr. rewrite list_lookup_fmap, Hr. cbn. by rewrite Hp1, Hp2.
Qed.

(** X9.  With its models loaded, [fluency] needs a model of at least two
    classes: on fewer it raises [IndexError].  On two or more it returns,
    per text, the probability of the second class, under the name
    ['fluency']; the globals stay as they are. *)
Theorem fluency_takes_two_classes `{!TorchLaws F} generated_outputs g t m :
  _fluency_tokenizer g = Some t ->
  _fluency_model g = Some m ->
  let logits := forward (obj m) (tok_call (obj t) generated_outputs false None) in
  (ncols logits < 2 -> fluency generated_outputs g = (Raise IndexError, g))
  /\ (tensor_wf logits -> 2 <= ncols logits ->
      exists value,
        fluency generated_outputs g = (Ok value, g)
        /\ metric_name F value = "fluency"
        /\ ReferenceFreeTextQuality.generated_outputs F value = generated_outputs
        /\ length (metric_values F value) = length (rows logits)
        /\ forall i r, rows logits !! i = Some r ->
             exists p1,
               softmax_row r !! 1 = Some p1
               /\ metric_values F value !! i = Some p1).
Proof.
  intros Ht Hm logits. rewrite (fluency_cached _ g t m Ht Hm). cbn zeta.
  fold logits. split.
  - intros Hn. rewrite column_Raise by (cbn [softmax ncols]; lia). done.
  - intros Hwf Hn. rewrite column_Ok by (cbn [softmax ncols]; lia).
    cbn [rbind]. eexists. split; [done|].
    cbn [metric_name ReferenceFreeTextQuality.generated_outputs metric_values
         softmax rows].
    split_and!; [done | done | by rewrite !length_map |].
    intros i r Hr.
    assert (length (softmax_row r) = ncols logits) as Hlen.
    { rewrite softmax_row_length.
      eapply Forall_lookup_1 in Hwf; [exact Hwf | exact Hr]. }
    destruct (lookup_lt_is_Some_2 (softmax_row r) 1) as [p1 Hp1]; [lia|].
    exists p1. split; [done|].
    rewrite map_map, list_lookup_fmap, Hr. cbn. by rewrite Hp1.
Qed.

(** X11.  Once a call of [sentiment] or [fluency] has got its models, the
    call is idempotent: the same call again returns what the first call
    returned, score for score, and leaves the globals as the first call
    left them. *)
Theorem metric_calls_are_idempotent k generated_outputs g p g' :
  fetch k g = (Ok p, g') ->
  exists r,
    call k generated_outputs g = (r, g')
    /\ call k generated_outputs g' = (r, g').
Proof.
  intros Hfetch.
  destruct (fetch_inv_Ok hub_tokenizer hub_model _ _ _ _ Hfetch) as [Hct Hcm].
  assert (fetch k g' = (Ok p, g')) as Hagain.
  { rewrite (fetch_cached hub_tokenizer hub_model k g' p.1 p.2) by done.
    by destruct p. }
  exists (call k generated_outputs g).1.
  assert (call k generated_outputs g = ((call k generated_outputs g).1, g'))
    as Hfirst.
  { rewrite (surjective_pairing (call k generated_outputs g)) at 1.
    by rewrite call_state, Hfetch. }
  split; [exact Hfirst|]. rewrite <- Hfirst.
  destruct k; cbn [ReferenceFreeTextQuality.call ReferenceFreeTextQuality.fetch] in *.
  - unfold ReferenceFreeTextQuality.sentiment.
    by rewrite (bind_Ok _ _ g' p g' Hagain), (bind_Ok _ _ g p g' Hfetch).
  - unfold ReferenceFreeTextQuality.fluency.
    by rewrite (bind_Ok _ _ g' p g' Hagain), (bind_Ok _ _ g p g' Hfetch).
Qed.
End MetricFacts.

(** X10.  In exact arithmetic the score of [sentiment] is the score of the
    scorer with the class weights [0, 0.5, 1]: on the logits of a model of
    three classes, [_logits_to_scores] with these weights returns the very
    values that [sentiment] returns. *)
Theorem sentiment_is_the_weighted_scorer
    (sm : list Q -> list Q)
    (hub_tokenizer : nat -> string -> option Tokenizer)
    (hub_model : nat -> string -> option (Model Q))
    (self : HfModels.Scorer Q) generated_outputs
    (g : ReferenceFreeTextQuality.Globals Q) t m :
  (forall r, length (sm r) = length r) ->
  HfModels.class_weights self = Toy.sentiment_weights ->
  ReferenceFreeTextQuality._sentiment_tokenizer g = Some t ->
  ReferenceFreeTextQuality._sentiment_model g = Some m ->
  let logits :=
    forward (ReferenceFreeTextQuality.obj m)
      (tok_call (ReferenceFreeTextQuality.obj t) generated_outputs false None) in
  tensor_wf logits ->
  ncols logits = 3 ->
  exists value,
    ReferenceFreeTextQuality.sentiment (H := Toy.QTorch sm)
      hub_tokenizer hub_model generated_outputs g = (Ok value, g)
    /\ HfModels._logits_to_scores (H := Toy.QTorch sm) self logits
       = Ok (ReferenceFreeTextQuality.metric_values Q value).
Proof.
  intros Hsm Hw Ht Hm logits Hwf Hn.
  pose (T := Toy.QTorch sm).
  assert (@TorchLaws Q T) as L by (constructor; exact Hsm).
  eexists. split.
  { apply (sentiment_values (H := T)); [done..|]. fold logits. lia. }
  cbn [ReferenceFreeTextQuality.metric_values]. fold logits.
  rewrite (logits_to_scores_Ok (H := T)) by (done || (rewrite Hw, Hn; cbn; lia)).
  f_equal. apply map_ext_in. intros r Hr.
  assert (length (sm r) = 3) as Hlen.
  { rewrite Hsm, <- Hn. unfold tensor_wf in Hwf. rewrite Forall_forall in Hwf.
    by apply Hwf, list_elem_of_In. }
  rewrite Hw. change (@softmax_row Q T r) with (sm r).
  destruct (sm r) as [|p0 [|p1 [|p2 [|]]]] eqn:Hrow; try discriminate.
  cbn. apply Qred_complete. rewrite !Qred_correct.
  change (inject_Z 2) with 2%Q. field.
Qed.

(** ** Chunks of a batch *)

Section ChunkFacts.
Import HfModels.
Context {F : Type} `{Torch F}.
Implicit Types (self : Scorer F) (w : World).

Lemma slice_start_of_nonneg {A} (a : Z) (l : list A) :
  (0 <= a)%Z -> slice_start a l = Z.to_nat a `min` length l.
Proof.
  intros Ha. unfold slice_start, slice_bound.
  destruct (Z.ltb_spec a 0); lia.
Qed.

Lemma slice_stop_of_nonneg {A} (a : Z) (l : list A) :
  (0 <= a)%Z -> slice_stop a l = Z.to_nat a `min` length l.
Proof.
  intros Ha. unfold slice_stop, slice_bound.
  destruct (Z.ltb_spec a 0); lia.
Qed.

(** Adjacent slices make up the slice around them. *)
Lemma slice_app {A} (a b c : Z) (l : list A) :
  (0 <= a <= b)%Z -> (b <= c)%Z ->
  slice a b l ++ slice b c l = slice a c l.
Proof.
  intros Hab Hbc. unfold slice.
  rewrite !slice_start_of_nonneg by lia. rewrite ?slice_stop_of_nonneg by lia.
  set (A' := Z.to_nat a `min` length l).
  set (B' := Z.to_nat b `min` length l).
  set (C' := Z.to_nat c `min` length l).
  assert (A' <= B' /\ B' <= C') as [HAB HBC] by (unfold A', B', C'; lia).
  replace (drop B' l) with (drop (B' - A') (drop A' l))
    by (rewrite drop_drop; f_equal; lia).
  rewrite take_take_drop. f_equal. lia.
Qed.

(** An end beyond the sequence is the end of the sequence. *)
Lemma slice_beyond {A} (a e : Z) (l : list A) :
  (Z.of_nat (length l) <= e)%Z ->
  slice a e l = slice a (Z.of_nat (length l)) l.
Proof.
  intros He. unfold slice, slice_stop, slice_bound.
  destruct (Z.ltb_spec e 0), (Z.ltb_spec (Z.of_nat (length l)) 0);
    do 2 f_equal; lia.
Qed.

Lemma slice_map {A B} (f : A -> B) (a b : Z) (l : list A) :
  slice a b (map f l) = map f (slice a b l).
Proof.
  unfold slice, slice_start, slice_stop. rewrite length_map.
  by rewrite skipn_map, firstn_map.
Qed.

Lemma slice_zip_with {A B C} (f : A -> B -> C) (a b : Z) (l : list A) (k : list B) :
  length l = length k ->
  slice a b (zip_with f l k) = zip_with f (slice a b l) (slice a b k).
Proof.
  intros Hlen. unfold slice, slice_start, slice_stop.
  rewrite length_zip_with, <- Hlen, Nat.min_id.
  by rewrite zip_with_drop, zip_with_take.
Qed.

(** X12.  The chunks that [_slice_tokens] cuts fit together: for bounds
    [0 <= a <= b <= c], the flags of the chunk from [a] to [b] followed by
    the flags of the chunk from [b] to [c] are the flags of the chunk from
    [a] to [c], and so are the rows under every key of the batch.  Nothing
    is lost and nothing comes twice when a batch is scored chunk by chunk. *)
Theorem slice_tokens_adjacent self (input_tokens : Batch)
    (validation_results : list bool) (a b c : Z) :
  (0 <= a <= b)%Z -> (b <= c)%Z ->
  let first := _slice_tokens self (input_tokens, validation_results) a b in
  let second := _slice_tokens self (input_tokens, validation_results) b c in
  let whole := _slice_tokens self (input_tokens, validation_results) a c in
  first.2 ++ second.2 = whole.2
  /\ forall key,
       whole.1 !! key
       = (rows1 ← first.1 !! key; rows2 ← second.1 !! key; Some (rows1 ++ rows2)).
Proof.
  intros Hab Hbc first second whole. split.
  - by apply slice_app.
  - intros key. unfold first, second, whole, _slice_tokens. cbn [fst].
    rewrite !lookup_fmap. destruct (input_tokens !! key) as [value|]; [|done].
    cbn. by rewrite slice_app.
Qed.

(** X13.  The bounds of [_slice_tokens] need not lie within the batch: an
    end beyond the last row gives what the end at the last row gives, so
    that the last chunk may overshoot, and a start at or beyond the end
    gives the empty chunk.  No bound raises. *)
Theorem slice_tokens_clamps self (input_tokens : Batch)
    (validation_results : list bool) (start_idx end_idx : Z) :
  batch_len (length validation_results) input_tokens ->
  ((Z.of_nat (length validation_results) <= end_idx)%Z ->
   _slice_tokens self (input_tokens, validation_results) start_idx end_idx
   = _slice_tokens self (input_tokens, validation_results) start_idx
       (Z.of_nat (length validation_results)))
  /\ ((0 <= end_idx <= start_idx)%Z ->
      _slice_tokens self (input_tokens, validation_results) start_idx end_idx
      = ((fun _ => []) <$> input_tokens, [])).
Proof.
  intros Hlen. split.
  - intros He. unfold _slice_tokens. f_equal; [|by apply slice_beyond].
    apply map_fmap_ext. intros key value Hv.
    rewrite slice_beyond by (rewrite (Hlen key value Hv); done).
    by rewrite (Hlen key value Hv).
  - intros Hse. unfold _slice_tokens.
    assert (forall A (l : list A), slice start_idx end_idx l = []) as Hempty.
    { intros A l. unfold slice.
      rewrite !slice_start_of_nonneg by lia. rewrite ?slice_stop_of_nonneg by lia.
      replace (Z.to_nat end_idx `min` length l - Z.to_nat start_idx `min` length l)
        with 0 by lia.
      done. }
    f_equal; [|apply Hempty]. apply map_fmap_ext. intros. apply Hempty.
Qed.

(** X14.  Scoring a chunk gives the chunk of the scores.  If the model
    treats the rows of a batch one by one, so that its logits on the sliced
    batch are the slice of its logits on the whole batch, then
    [_score_tokens] on the batch cut by [_slice_tokens] returns the slice,
    between the same bounds, of what [_score_tokens] returns on the whole
    batch. *)
Theorem score_tokens_of_slice `{!TorchLaws F} self (input_tokens : Batch)
    (validation_results : list bool) (start_idx end_idx : Z) w w' :
  let logits := forward (model self) input_tokens in
  tensor_wf logits ->
  length (class_weights self) <= ncols logits ->
  length validation_results = length (rows logits) ->
  forward (model self) (slice start_idx end_idx <$> input_tokens)
  = {| ncols := ncols logits; rows := slice start_idx end_idx (rows logits) |} ->
  exists scores,
    (_score_tokens self (input_tokens, validation_results) w).1 = Ok scores
    /\ (_score_tokens self
          (_slice_tokens self (input_tokens, validation_results)
             start_idx end_idx) w').1
       = Ok (slice start_idx end_idx scores).
Proof.
  intros logits Hwf Hcw Hlen Hrows.
  eexists. split; [by rewrite score_tokens_Ok|].
  unfold _slice_tokens. rewrite score_tokens_Ok; rewrite ?Hrows; cbn [ncols rows].
  - cbn [fst]. f_equal. unfold nullified.
    rewrite slice_zip_with by (by rewrite length_map).
    by rewrite slice_map.
  - unfold tensor_wf in *. cbn [ncols rows]. unfold slice.
    by apply Forall_take, Forall_drop.
  - done.
  - rewrite !length_slice.
    by rewrite (slice_start_length start_idx validation_results (rows logits)),
               (slice_stop_length end_idx validation_results (rows logits)).
Qed.
End ChunkFacts.

(** ** Flags that do not match the batch *)

Section FlagFacts.
Import HfModels.
Context {F : Type} `{Torch F}.
Implicit Types (self : Scorer F) (w : World).

(** The loop of [_score_tokens] when every invalid text has a score to
    overwrite. *)
Lemma score_tokens_loop_within (validation_results : list bool) :
  forall i (scores : list (option F)),
    (forall j, validation_results !! j = Some false -> i + j < length scores) ->
    exists out,
      _score_tokens_loop i validation_results scores = Ok out
      /\ length out = length scores
      /\ forall j,
           out !! j =
             if decide (i <= j /\ validation_results !! (j - i) = Some false)
             then Some None else scores !! j.
Proof.
  induction validation_results as [|v flags IH]; intros i scores Hin.
  - exists scores. split_and!; [done..|]. intros j.
    rewrite decide_False; [done|]. intros [_ Hj]. by rewrite lookup_nil in Hj.
  - assert (forall scores' : list (option F),
              length scores' = length scores ->
              forall j, flags !! j = Some false -> S i + j < length scores')
      as Hin'.
    { intros scores' Hlen j Hj. rewrite Hlen.
      specialize (Hin (S j) Hj). lia. }
    assert (forall j out (scores' : list (option F)),
              i <> j ->
              (out = if decide (S i <= j /\ flags !! (j - S i) = Some false)
                     then Some None else scores' !! j) ->
              out = if decide (i <= j /\ (v :: flags) !! (j - i) = Some false)
                    then Some None else scores' !! j) as Hshift.
    { intros j out scores' Hne ->.
      destruct (decide (i <= j)) as [Hle|Hgt].
      - replace (j - i) with (S (j - S i)) by lia. cbn [lookup list_lookup].
        destruct (decide (S i <= j /\ flags !! (j - S i) = Some false))
          as [[_ Hf]|Hnf].
        + by rewrite decide_True.
        + rewrite decide_False; [done|]. intros [_ Hf]. apply Hnf.
          split; [lia | done].
      - rewrite !decide_False; [done | lia..]. }
    cbn [_score_tokens_loop]. destruct v; cbn [negb].
    + destruct (IH (S i) scores (Hin' scores eq_refl))
        as (out & Hrun & Hout & Hlook).
      exists out. split_and!; [done..|]. intros j.
      destruct (decide (i = j)) as [->|Hne]; [|by apply Hshift].
      rewrite Hlook, !decide_False; [done | | lia].
      rewrite Nat.sub_diag. cbn. intros [_ [=]].
    + specialize (Hin 0 eq_refl). rewrite decide_True by lia.
      destruct (IH (S i) (<[i:=None]> scores)
                  (Hin' _ (length_insert _ _ _)))
        as (out & Hrun & Hout & Hlook).
      exists out. split_and!; [done | by rewrite Hout, length_insert |].
      intros j. destruct (decide (i = j)) as [->|Hne].
      * rewrite Hlook, decide_False by lia. rewrite decide_True.
        -- apply list_lookup_insert_eq. lia.
        -- rewrite Nat.sub_diag. done.
      * apply Hshift; [done|]. rewrite Hlook.
        by rewrite list_lookup_insert_ne.
Qed.

(** The loop when some invalid text has no score to overwrite. *)
Lemma score_tokens_loop_beyond (validation_results : list bool) :
  forall i (scores : list (option F)) j,
    validation_results !! j = Some false ->
    length scores <= i + j ->
    _score_tokens_loop i validation_results scores = Raise IndexError.
Proof.
  induction validation_results as [|v flags IH]; intros i scores j Hj Hlen;
    [done|].
  cbn [_score_tokens_loop].
  destruct j as [|j].
  - injection Hj as ->. cbn [negb]. rewrite decide_False; [done | lia].
  - cbn in Hj. destruct v; cbn [negb].
    + apply (IH _ _ j); [done | lia].
    + destruct (decide (i < length scores)); [|done].
      apply (IH _ _ j); [done | rewrite length_insert; lia].
Qed.

(** X15.  [_score_tokens] trusts its flags.  It returns as many entries as
    the logits have rows, whatever the number of flags: a row without a flag
    keeps its score, a [True] flag without a row is ignored.  A [False] flag
    without a row is an [IndexError], raised after the model has run. *)
Theorem score_tokens_with_any_flags `{!TorchLaws F} self (input_tokens : Batch)
    (validation_results : list bool) w :
  let logits := forward (model self) input_tokens in
  let score r := dot (softmax_row r) (class_weights self) in
  tensor_wf logits ->
  length (class_weights self) <= ncols logits ->
  ((exists j, validation_results !! j = Some false /\ length (rows logits) <= j) ->
   _score_tokens self (input_tokens, validation_results) w
   = (Raise IndexError, after [ModelForward input_tokens] w))
  /\ ((forall j, validation_results !! j = Some false -> j < length (rows logits)) ->
      exists out,
        _score_tokens self (input_tokens, validation_results) w
        = (Ok out, after [ModelForward input_tokens] w)
        /\ length out = length (rows logits)
        /\ forall j r, rows logits !! j = Some r ->
             out !! j
             = Some (match validation_results !! j with
                     | Some false => None
                     | _ => Some (score r)
                     end)).
Proof.
  intros logits score Hwf Hcw. rewrite score_tokens_run. fold logits.
  rewrite logits_to_scores_Ok by done. cbn [rbind]. fold score. split.
  - intros (j & Hj & Hlen). f_equal.
    apply (score_tokens_loop_beyond _ _ _ j Hj). by rewrite !length_map.
  - intros Hin.
    destruct (score_tokens_loop_within validation_results 0
                (map Some (map score (rows logits))))
      as (out & -> & Hout & Hlook).
    { intros j Hj. rewrite !length_map. by apply Hin. }
    exists out. split; [done|]. split; [by rewrite Hout, !length_map|].
    intros j r Hr. rewrite Hlook, Nat.sub_0_r.
    destruct (validation_results !! j) as [[|]|] eqn:Hv.
    + rewrite decide_False by (intros [_ [=]]).
      by rewrite !list_lookup_fmap, Hr.
    + rewrite decide_True by (split; [lia | done]). done.
    + rewrite decide_False by (intros [_ [=]]).
      by rewrite !list_lookup_fmap, Hr.
Qed.

(** X17.  What [_tokenize] and then [_score_tokens] do to the outside under
    ['nullify']: one call of the tokenizer on all texts, one [encode] per
    text in order, and one call of the model, on the whole truncated batch.
    The texts found too long are not taken out before the model runs, and
    the logging level is in the end what it was; this holds whether
    [_score_tokens] returns or raises. *)
Theorem nullify_calls_the_model_once self (inputs : list string) w :
  overflow_strategy self = "nullify" ->
  let tokens :=
    tok_call (tokenizer self) inputs true (Some (max_input_length self)) in
  exists w1 r w2,
    _tokenize self inputs w
    = (Ok (tokens, map (is_within_limit self) inputs), w1)
    /\ _score_tokens self (tokens, map (is_within_limit self) inputs) w1 = (r, w2)
    /\ trace w2
       = trace w ++ TokenizerCall inputs (max_input_length self)
                    :: map TokenizerEncode inputs ++ [ModelForward tokens]
    /\ logging_level w2 = logging_level w.
Proof.
  intros Hs tokens. eexists _, _, _.
  split; [by apply tokenize_nullify_run|].
  split; [apply score_tokens_run|].
  unfold after. cbn [trace logging_level].
  split; [|done]. by rewrite <- app_assoc.
Qed.
End FlagFacts.

(** ** Scores between the weights *)

Section Bounds.
Import HfModels Exact.
Variable sm : list Q -> list Q.
Let T : Torch Q := Toy.QTorch sm.
Existing Instance T.


End Bounds.

(** ** The further properties on concrete instances *)

Section MoreWitnesses.
Import HfModels.
Local Existing Instances Toy.torch Toy.torch_laws.

Local Ltac toy_wf :=
  unfold tensor_wf; vm_compute; repeat constructor.

Local Ltac toy_batch_len :=
  apply map_Forall_insert_2; [reflexivity|];
  apply map_Forall_insert_2; [reflexivity|]; apply map_Forall_empty.

Local Abbreviation conv_hiragana :=
  (ConvKana.conv_hiragana Examples.to_kata Examples.to_pair (fun s => s)
     Examples.one_half).

Lemma conv_hiragana_count_witness :
  exists out n',
    conv_hiragana (inl [Examples.neko_a; Examples.ok]) "kata" 1 2 0 = (Ok out, n')
    /\ length out = 4
    /\ n' = 10.
Proof.
  eexists _, _. split; [vm_compute; reflexivity|].
  destruct (conv_hiragana_count Examples.to_kata Examples.to_pair (fun s => s)
              Examples.one_half (inl [Examples.neko_a; Examples.ok]) "kata" 1 2 0
              _ _ eq_refl) as [Hlen Hdraws].
  split; [exact Hlen | exact Hdraws].
Defined.

Lemma conv_hiragana_converts_all_witness :
  (conv_hiragana (inr Examples.neko_a) "hkata" 1 2 0).1
  = Ok [[12397; 12397; 12371; 12371; 65]%N; [12397; 12397; 12371; 12371; 65]%N].
Proof.
  rewrite (conv_hiragana_converts_all Examples.to_kata Examples.to_pair
             (fun s => s) Examples.one_half (inr Examples.neko_a) "hkata" 1 2
             Examples.to_pair 0 eq_refl);
    [reflexivity | discriminate | intros k; reflexivity].
Defined.

Lemma conv_hiragana_negative_p_witness :
  (conv_hiragana (inl [Examples.neko_a; Examples.ok]) "romaji" (-1) 1 0).1
  = Ok [Examples.neko_a; Examples.ok].
Proof.
  rewrite (conv_hiragana_negative_p Examples.to_kata Examples.to_pair
             (fun s => s) Examples.one_half (inl [Examples.neko_a; Examples.ok])
             "romaji" (-1) 1 0);
    [reflexivity | reflexivity | intros k; discriminate].
Defined.

Lemma conv_hiragana_fixed_characters_witness :
  (conv_hiragana (inr Examples.ok) "kata" (1 # 2) 3 0).1
  = Ok [Examples.ok; Examples.ok; Examples.ok].
Proof.
  rewrite (conv_hiragana_fixed_characters Examples.to_kata Examples.to_pair
             (fun s => s) Examples.one_half (inr Examples.ok) "kata" (1 # 2) 3
             Examples.to_kata 0 eq_refl);
    [reflexivity | repeat constructor].
Defined.

Lemma conv_hiragana_validates_lazily_witness :
  (conv_hiragana (inl [[]; Examples.ok]) "romaji" 1 1 0).1
  = Raise ConvKana.invalid_convert_to
  /\ (conv_hiragana (inl [[]; []]) "romaji" 1 1 0).1 = Ok [[]; []]
  /\ (conv_hiragana (inl [[]; Examples.ok]) "romaji" 1 0 0).1 = Ok [].
Proof.
  split_and!.
  - rewrite (conv_hiragana_validates_lazily Examples.to_kata Examples.to_pair
               (fun s => s) Examples.one_half (inl [[]; Examples.ok]) "romaji" 1 1 0);
      [reflexivity | reflexivity | discriminate | intros k; reflexivity].
  - rewrite (conv_hiragana_validates_lazily Examples.to_kata Examples.to_pair
               (fun s => s) Examples.one_half (inl [[]; []]) "romaji" 1 1 0);
      [reflexivity | reflexivity | discriminate | intros k; reflexivity].
  - rewrite (conv_hiragana_validates_lazily Examples.to_kata Examples.to_pair
               (fun s => s) Examples.one_half (inl [[]; Examples.ok]) "romaji" 1 0 0);
      [reflexivity | reflexivity | discriminate | intros k; reflexivity].
Defined.

Lemma flesch_scores_need_sentences_and_words_witness :
  Readability.flesch_reading_ease (H := Examples.QFloat)
    Examples.count_characters ["ab"; ""] = PyMore.Raised PyMore.ZeroDivisionError
  /\ exists ease,
       Readability.flesch_reading_ease (H := Examples.QFloat)
         Examples.count_characters ["ab"] = PyMore.Returned ease
       /\ length (ReferenceFreeTextQuality.metric_values Q ease) = 1.
Proof.
  split.
  - destruct (flesch_scores_need_sentences_and_words (H := Examples.QFloat)
                Examples.count_characters ["ab"; ""]) as [Hraise _].
    exact (proj1 (Hraise eq_refl)).
  - destruct (flesch_scores_need_sentences_and_words (H := Examples.QFloat)
                Examples.count_characters ["ab"]) as [_ Hreturn].
    destruct (Hreturn eq_refl) as (ease & grade & He & _ & _ & _ & Hlen & _).
    exists ease. split; [exact He | exact Hlen].
Defined.

Lemma toxicity_model_is_built_once_witness :
  exists g1 value g2,
    Toxicity.toxicity Examples.second_try ["ok"] Toxicity.initial_globals
    = (PyMore.Raised (PyMore.Builtin OSError), g1)
    /\ Toxicity.toxicity Examples.second_try ["ok"] g1 = (PyMore.Returned value, g2)
    /\ Toxicity.toxicity Examples.second_try ["ok"] g2 = (PyMore.Returned value, g2)
    /\ Toxicity.constructed
         (Toxicity.run_calls Examples.second_try [["ok"]; ["ok"]; ["ok"]]
            Toxicity.initial_globals) <= 1.
Proof.
  destruct (toxicity_model_is_built_once Examples.second_try)
    as (Honce & Hset & Hbuild & Hfail).
  destruct (Hfail ["ok"] Toxicity.initial_globals eq_refl eq_refl)
    as (g1 & Hg1 & Hnone).
  assert (length (Toxicity.constructions g1) = 1) as Hlen
    by (injection Hg1 as <-; reflexivity).
  destruct (Hbuild ["ok"] g1 Examples.harmless Hnone)
    as (model & g2 & Hobj & Hsome & Hg2); [by rewrite Hlen|].
  pose proof (Hset ["ok"] g2 model Hsome) as Hagain.
  rewrite Hobj in Hagain. cbn in Hagain.
  rewrite Hagain in Hg2. cbn [fst] in Hg2.
  eexists g1, _, g2. split; [exact Hg1|]. split; [exact Hg2|].
  split; [exact Hagain | apply Honce].
Defined.

Lemma sentiment_takes_three_classes_witness :
  (ReferenceFreeTextQuality.sentiment Toy.hub_tokenizer (Examples.hub_model_of 2)
     Toy.texts (Examples.sentiment_loaded 2)).1 = Raise IndexError
  /\ exists value,
       (ReferenceFreeTextQuality.sentiment Toy.hub_tokenizer
          (Examples.hub_model_of 3) Toy.texts (Examples.sentiment_loaded 3)).1
       = Ok value
       /\ ReferenceFreeTextQuality.metric_values Q value = [1 # 2; 1 # 2]%Q.
Proof.
  split.
  - destruct (sentiment_takes_three_classes Toy.hub_tokenizer
                (Examples.hub_model_of 2) Toy.texts (Examples.sentiment_loaded 2)
                _ _ eq_refl eq_refl) as [Hfew _].
    rewrite Hfew; [reflexivity | vm_compute; lia].
  - destruct (sentiment_takes_three_classes Toy.hub_tokenizer
                (Examples.hub_model_of 3) Toy.texts (Examples.sentiment_loaded 3)
                _ _ eq_refl eq_refl) as [_ Hthree].
    destruct Hthree as (value & Hrun & _ & _ & _ & _); [toy_wf | vm_compute; lia |].
    exists value. rewrite Hrun. split; [reflexivity|].
    vm_compute in Hrun. injection Hrun as <-. reflexivity.
Defined.

Lemma fluency_takes_two_classes_witness :
  (ReferenceFreeTextQuality.fluency Toy.hub_tokenizer (Examples.hub_model_of 1)
     Toy.texts (Examples.fluency_loaded 1)).1 = Raise IndexError
  /\ exists value,
       (ReferenceFreeTextQuality.fluency Toy.hub_tokenizer
          (Examples.hub_model_of 2) Toy.texts (Examples.fluency_loaded 2)).1
       = Ok value
       /\ ReferenceFreeTextQuality.metric_values Q value = [1 # 2; 1 # 2]%Q.
Proof.
  split.
  - destruct (fluency_takes_two_classes Toy.hub_tokenizer
                (Examples.hub_model_of 1) Toy.texts (Examples.fluency_loaded 1)
                _ _ eq_refl eq_refl) as [Hfew _].
    rewrite Hfew; [reflexivity | vm_compute; lia].
  - destruct (fluency_takes_two_classes Toy.hub_tokenizer
                (Examples.hub_model_of 2) Toy.texts (Examples.fluency_loaded 2)
                _ _ eq_refl eq_refl) as [_ Htwo].
    destruct Htwo as (value & Hrun & _ & _ & _ & _); [toy_wf | vm_compute; lia |].
    exists value. rewrite Hrun. split; [reflexivity|].
    vm_compute in Hrun. injection Hrun as <-. reflexivity.
Defined.

Lemma metric_calls_are_idempotent_witness :
  exists r,
    ReferenceFreeTextQuality.sentiment Toy.hub_tokenizer (Examples.hub_model_of 3)
      Toy.texts ReferenceFreeTextQuality.initial_globals
    = (r, Examples.sentiment_loaded 3)
    /\ ReferenceFreeTextQuality.sentiment Toy.hub_tokenizer
         (Examples.hub_model_of 3) Toy.texts (Examples.sentiment_loaded 3)
       = (r, Examples.sentiment_loaded 3).
Proof.
  exact (metric_calls_are_idempotent Toy.hub_tokenizer (Examples.hub_model_of 3)
           ReferenceFreeTextQuality.Sentiment Toy.texts
           ReferenceFreeTextQuality.initial_globals _ _ eq_refl).
Defined.

Lemma sentiment_is_the_weighted_scorer_witness :
  exists value,
    ReferenceFreeTextQuality.sentiment Toy.hub_tokenizer (Examples.hub_model_of 3)
      Toy.texts (Examples.sentiment_loaded 3)
    = (Ok value, Examples.sentiment_loaded 3)
    /\ _logits_to_scores (Toy.scorer Toy.sentiment_weights "nullify")
         (forward (Examples.model_of 3) (Toy.call Toy.texts false None))
       = Ok (ReferenceFreeTextQuality.metric_values Q value).
Proof.
  apply (sentiment_is_the_weighted_scorer Toy.uniform_softmax Toy.hub_tokenizer
           (Examples.hub_model_of 3) (Toy.scorer Toy.sentiment_weights "nullify")
           Toy.texts (Examples.sentiment_loaded 3)
           {| ReferenceFreeTextQuality.obj_id := 0;
              ReferenceFreeTextQuality.obj := Toy.toy_tokenizer |}
           {| ReferenceFreeTextQuality.obj_id := 1;
              ReferenceFreeTextQuality.obj := Examples.model_of 3 |});
    [intros r; apply length_map | reflexivity | reflexivity | reflexivity
    | toy_wf | reflexivity].
Defined.

Lemma slice_tokens_adjacent_witness :
  (_slice_tokens (Toy.scorer Toy.sentiment_weights "nullify")
     (Toy.tokens, [true; false]) 0 1).2
  ++ (_slice_tokens (Toy.scorer Toy.sentiment_weights "nullify")
        (Toy.tokens, [true; false]) 1 2).2
  = (_slice_tokens (Toy.scorer Toy.sentiment_weights "nullify")
       (Toy.tokens, [true; false]) 0 2).2.
Proof.
  exact (proj1 (slice_tokens_adjacent (Toy.scorer Toy.sentiment_weights "nullify")
                  Toy.tokens [true; false] 0 1 2
                  ltac:(lia) ltac:(lia))).
Defined.

Lemma slice_tokens_clamps_witness :
  _slice_tokens (Toy.scorer Toy.sentiment_weights "nullify")
    (Toy.tokens, [true; false]) 1 9
  = _slice_tokens (Toy.scorer Toy.sentiment_weights "nullify")
      (Toy.tokens, [true; false]) 1 2
  /\ (_slice_tokens (Toy.scorer Toy.sentiment_weights "nullify")
        (Toy.tokens, [true; false]) 2 1).2 = [].
Proof.
  destruct (slice_tokens_clamps (Toy.scorer Toy.sentiment_weights "nullify")
              Toy.tokens [true; false] 1 9) as [Hbeyond _]; [toy_batch_len|].
  destruct (slice_tokens_clamps (Toy.scorer Toy.sentiment_weights "nullify")
              Toy.tokens [true; false] 2 1) as [_ Hempty]; [toy_batch_len|].
  split.
  - apply Hbeyond. cbn. lia.
  - rewrite Hempty by lia. reflexivity.
Defined.

Lemma score_tokens_of_slice_witness :
  (_score_tokens (Toy.scorer Toy.sentiment_weights "nullify")
     (_slice_tokens (Toy.scorer Toy.sentiment_weights "nullify")
        (Toy.tokens, [true; false]) 1 2) Toy.world1).1
  = Ok [None].
Proof.
  destruct (score_tokens_of_slice (Toy.scorer Toy.sentiment_weights "nullify")
              Toy.tokens [true; false] 1 2 Toy.world1 Toy.world1)
    as (scores & Hwhole & Hslice);
    [toy_wf | vm_compute; lia | reflexivity | vm_compute; reflexivity |].
  rewrite Hslice. vm_compute in Hwhole. injection Hwhole as <-. reflexivity.
Defined.

Lemma score_tokens_with_any_flags_witness :
  (_score_tokens (Toy.scorer Toy.sentiment_weights "nullify")
     (Toy.tokens, [true; false; false]) Toy.world1).1 = Raise IndexError
  /\ exists out,
       (_score_tokens (Toy.scorer Toy.sentiment_weights "nullify")
          (Toy.tokens, [false]) Toy.world1).1 = Ok out
       /\ length out = 2.
Proof.
  split.
  - destruct (score_tokens_with_any_flags
                (Toy.scorer Toy.sentiment_weights "nullify") Toy.tokens
                [true; false; false] Toy.world1) as [Hraise _];
      [toy_wf | vm_compute; lia |].
    rewrite Hraise; [reflexivity|]. exists 2. split; [reflexivity | vm_compute; lia].
  - destruct (score_tokens_with_any_flags
                (Toy.scorer Toy.sentiment_weights "nullify") Toy.tokens
                [false] Toy.world1) as [_ Hreturn];
      [toy_wf | vm_compute; lia |].
    destruct Hreturn as (out & Hrun & Hlen & _).
    { intros [|j] Hj; [vm_compute; lia | discriminate]. }
    exists out. rewrite Hrun. split; [reflexivity | exact Hlen].
Defined.

Lemma nullify_calls_the_model_once_witness :
  exists w1 r w2,
    _tokenize (Toy.scorer Toy.sentiment_weights "nullify") Toy.texts Toy.world0
    = (Ok (Toy.tokens, [true; false]), w1)
    /\ _score_tokens (Toy.scorer Toy.sentiment_weights "nullify")
         (Toy.tokens, [true; false]) w1 = (r, w2)
    /\ trace w2
       = [TokenizerCall Toy.texts 8; TokenizerEncode "short";
          TokenizerEncode "a very long text"; ModelForward Toy.tokens].
Proof.
  destruct (nullify_calls_the_model_once
              (Toy.scorer Toy.sentiment_weights "nullify") Toy.texts Toy.world0
              eq_refl) as (w1 & r & w2 & Htok & Hscore & Htrace & _).
  exists w1, r, w2. split; [exact Htok|]. split; [exact Hscore | exact Htrace].
Defined.

End MoreWitnesses.
